(** * Deterministic.ipynb: a residual classifier on the two-moons data set

    A shallow embedding of [src/deterministic.py].

    Numbers.  A finite floating-point number is a rational, so coordinates,
    labels, scores and parameters are modelled in [Q]; arithmetic is exact
    (no rounding), and what the script computes with transcendental functions
    (sigmoid, the logarithm of the loss, the square root of Adam, the circle
    points of the two moons) enters as a parameter of the development.  A
    division is the one place where the script can leave the finite numbers,
    so its result lives in [fval].

    Randomness.  NumPy's and torch's generators are explicit states of an
    abstract type, threaded through every call that draws from them.

    Parameters of the network are cells of a store; the module and the
    optimizer both hold references (indices) into it, as the Python objects
    share the same tensors. *)

From Stdlib Require Import QArith Qminmax Lia Lqa Permutation.
From stdpp Require Import base option list gmap.

Local Open Scope nat_scope.
Set Warnings "-abstract-large-number".

#[global] Instance Q_inhabited : Inhabited Q := populate 0%Q.

(** ** Tensors of rationals *)

Module Tensor.

(** A one-dimensional tensor. *)
Definition vec := list Q.
(** A two-dimensional tensor, as the list of its rows. *)
Definition mat := list (list Q).

Definition vadd (u v : vec) : vec := zip_with Qplus u v.
Definition madd (a b : mat) : mat := zip_with vadd a b.

Definition dot (u v : vec) : Q := foldr Qplus 0%Q (zip_with Qmult u v).

(** [sum(xs)] of Python, on numbers. *)
Definition qsum (xs : list Q) : Q := fold_left Qplus xs 0%Q.

(** Apply a scalar function to every entry. *)
Definition mmap (f : Q -> Q) (a : mat) : mat := map (map f) a.

End Tensor.

(** ** The predictive-uncertainty heuristic (line 223) *)

(** One entry of [resnet_probs * (1 - resnet_probs)]. *)
Definition uncertainty (p : Q) : Q := (p * (1 - p))%Q.

(** [resnet_uncertainty = resnet_probs * (1 - resnet_probs)], elementwise. *)
Definition resnet_uncertainty (resnet_probs : list Q) : list Q :=
  zip_with Qmult resnet_probs (map (fun p => (1 - p)%Q) resnet_probs).

(** ** Visualisation macros (lines 34-38) *)

Definition DEFAULT_X_RANGE : Q * Q := (- (7 # 2), 7 # 2)%Q.
Definition DEFAULT_Y_RANGE : Q * Q := (- (5 # 2), 5 # 2)%Q.
Definition DEFAULT_N_GRID : nat := 100.

(** ** The evaluation grid (lines 53-61) *)

Definition Qnat (n : nat) : Q := inject_Z (Z.of_nat n).

(** [np.linspace(start, stop, num)] with its default [endpoint=True]:
    [arange(num) * step + start] where [step = (stop - start) / (num - 1)],
    computed as [arange(num) / div * delta] when the step is zero and as
    [arange(num) * delta] when [num = 1]; the last entry is then overwritten
    with [stop] when [num > 1]. *)
Definition linspace (start stop : Q) (num : nat) : list Q :=
  let div := num - 1 in
  let delta := (stop - start)%Q in
  let y := map Qnat (seq 0 num) in
  let y :=
    if 0 <? div then
      let step := (delta / Qnat div)%Q in
      if Qeq_bool step 0 then map (fun t => (t / Qnat div * delta)%Q) y
      else map (fun t => (t * step)%Q) y
    else map (fun t => (t * delta)%Q) y in
  let y := map (fun t => (t + start)%Q) y in
  if 1 <? num then <[num - 1 := stop]> y else y.

(** [np.meshgrid(x, y)] with its default [indexing='xy']: both results have
    one row per entry of [y] and one column per entry of [x]. *)
Definition meshgrid (x y : list Q) : list (list Q) * list (list Q) :=
  (map (fun _ => x) y, map (fun yj => map (fun _ => yj) x) y).

(** [a.flatten()], row-major. *)
Definition flatten {A} (a : list (list A)) : list A := concat a.

(** [torch.stack([a, b], axis=-1)] of two one-dimensional tensors: the rows
    [(a[k], b[k])]. *)
Definition stack_last (a b : list Q) : list (Q * Q) := zip a b.

Definition make_testing_data (x_range y_range : Q * Q) (n_grid : nat)
  : list (Q * Q) :=
  let x := linspace (fst x_range) (snd x_range) n_grid in
  let y := linspace (fst y_range) (snd y_range) n_grid in
  let '(xv, yv) := meshgrid x y in
  stack_last (flatten xv) (flatten yv).

(** The call of line 67, with the default arguments. *)
Definition test_examples : list (Q * Q) :=
  make_testing_data DEFAULT_X_RANGE DEFAULT_Y_RANGE DEFAULT_N_GRID.

(** ** Normalisation of the plotted surface (lines 174-206) *)

(** The outcome of a floating-point division: a finite number, an infinity
    or not-a-number.  torch raises no exception on a zero divisor. *)
Inductive fval : Type :=
| Finite (q : Q)
| PosInf
| NegInf
| NaN.

Definition is_finite (v : fval) : bool :=
  match v with Finite _ => true | _ => false end.

(** [x / m] on tensors entries. *)
Definition fdiv (x m : Q) : fval :=
  if Qeq_bool m 0 then
    match (x ?= 0)%Q with
    | Eq => NaN
    | Gt => PosInf
    | Lt => NegInf
    end
  else Finite (x / m).

(** [torch.max(t)]: the largest entry; it raises on an empty tensor
    ([None]). *)
Definition torch_max (t : list Q) : option Q :=
  match t with
  | [] => None
  | x :: xs => Some (fold_left Qmax xs x)
  end.

(** Line 185: [test_uncertainty = test_uncertainty / torch.max(test_uncertainty)]. *)
Definition normalize_uncertainty (test_uncertainty : list Q) : option (list fval) :=
  m ← torch_max test_uncertainty;
  Some (map (fun x => fdiv x m) test_uncertainty).

(** [np.reshape(a, [n, n])]: it raises unless [a] has [n * n] entries. *)
Fixpoint rows_of {A} (n rows : nat) (a : list A) : list (list A) :=
  match rows with
  | 0 => []
  | S r => take n a :: rows_of n r (drop n a)
  end.

Definition reshape_grid {A} (n : nat) (a : list A) : option (list (list A)) :=
  if length a =? n * n then Some (rows_of n n a) else None.

(** The array that [plot_uncertainty_surface] hands to [imshow]; the axes,
    the scatter plots and the returned handle are rendering only. *)
Definition plot_uncertainty_surface (test_uncertainty : list Q)
  : option (list (list fval)) :=
  a ← normalize_uncertainty test_uncertainty;
  reshape_grid DEFAULT_N_GRID a.

(** ** A small state monad for the code that draws random numbers *)

Definition St (S A : Type) : Type := S -> A * S.

Definition ret {S A} (a : A) : St S A := fun s => (a, s).

Definition bind {S A B} (m : St S A) (k : A -> St S B) : St S B :=
  fun s => let '(a, s') := m s in k a s'.

Declare Scope st_scope.
Delimit Scope st_scope with st.
Notation "x <~ m ;; k" := (bind m (fun x => k))
  (at level 100, m at next level, right associativity) : st_scope.

(** Run [m] [n] times and collect the results in order. *)
Fixpoint repeatM {S A} (n : nat) (m : St S A) : St S (list A) :=
  match n with
  | 0 => ret []
  | S n' => (a <~ m ;; rest <~ repeatM n' m ;; ret (a :: rest))%st
  end.

(** Run [f] on every entry, left to right. *)
Fixpoint mapM {S A B} (f : A -> St S B) (l : list A) : St S (list B) :=
  match l with
  | [] => ret []
  | a :: l' => (b <~ f a ;; rest <~ mapM f l' ;; ret (b :: rest))%st
  end.

(** [x[i], x[j] = x[j], x[i]]. *)
Definition swap {A} (x : list A) (i j : nat) : list A :=
  match x !! i, x !! j with
  | Some a, Some b => <[j := a]> (<[i := b]> x)
  | _, _ => x
  end.

Definition padd (p d : Q * Q) : Q * Q := (fst p + fst d, snd p + snd d)%Q.

(** [X[mask] += d]: the rows selected by a boolean mask are shifted. *)
Definition masked_add (X : list (Q * Q)) (mask : list bool) (d : Q * Q)
  : list (Q * Q) :=
  zip_with (fun p (m : bool) => if m then padd p d else p) X mask.


(** ** Predicates and reference definitions used in the statements *)

(** Entry [i] of [n] evenly spaced values over [range], both end points
    included. *)
Definition lattice_coord (range : Q * Q) (n i : nat) : Q :=
  (fst range + Qnat i * ((snd range - fst range) / Qnat (n - 1)))%Q.

(** Two points with equal coordinates. *)
Definition peq (a b : Q * Q) : Prop := (fst a == fst b /\ snd a == snd b)%Q.

(** Entry [k] of a grid is the lattice point of column [k mod n] and row
    [k / n], for the default ranges and resolution. *)
Definition on_lattice (pts : list (Q * Q)) (k : nat) : bool :=
  match pts !! k with
  | Some pt =>
      Qeq_bool (fst pt)
        (lattice_coord DEFAULT_X_RANGE DEFAULT_N_GRID (k mod DEFAULT_N_GRID))
      && Qeq_bool (snd pt)
           (lattice_coord DEFAULT_Y_RANGE DEFAULT_N_GRID (k / DEFAULT_N_GRID))
  | None => false
  end.

(** A finite entry between 0 and 1. *)
Definition unit_interval (v : fval) : Prop :=
  match v with Finite q => (0 <= q <= 1)%Q | _ => False end.

(** A finite entry equal to 1. *)
Definition is_one (v : fval) : Prop :=
  match v with Finite q => (q == 1)%Q | _ => False end.

(** An array whose maximum is 1 and whose entries all lie in [0, 1]. *)
Definition normalized (a : list fval) : Prop :=
  Exists is_one a /\ Forall unit_interval a.

(** A score array of the size of the grid with one negative entry. *)
Definition negative_scores : list Q := (- (1))%Q :: replicate 9999 1%Q.

(** A score array of the size of the grid whose entries are all 0. *)
Definition zero_scores : list Q := replicate 10000 0%Q.

(** How often a label occurs. *)
Definition count_label (l : Q) (labels : list Q) : nat :=
  length (List.filter (Qeq_bool l) labels).

(** The offset that line 48 or line 49 adds to a point of the given label. *)
Definition shift_of (label : Z) : Q * Q :=
  if (label =? 0)%Z then (- (1 # 10), 2 # 10)%Q else (1 # 10, - (2 # 10))%Q.

(** A counter as a generator, for the examples at the end: its raw output
    is its state, and an entry is kept when the state is even. *)
Definition counter_next (g : nat) : nat * nat := (g, S g).

Definition counter_bernoulli (q : Q) (g : nat) : bool * nat := (Nat.even g, S g).

(** * The script *)

Section Script.

(** *** The random number generators

    The state of a generator, its raw output, and the samplers that NumPy
    and torch build on it. *)
Variable rng : Type.
Variable next : rng -> nat * rng.
Variable normal : Q -> rng -> Q * rng.
Variable multivariate_normal : Q * Q -> Q * Q -> rng -> (Q * Q) * rng.
Variable np_seed torch_seed : nat -> rng.

(** A draw below [bound]: the raw output reduced modulo the bound. *)
Definition randint (bound : nat) : St rng nat :=
  fun g => let '(u, g') := next g in (u mod bound, g').

(** [RandomState.shuffle(x)]: for [i] from [len(x) - 1] down to 1, swap
    entry [i] with a random entry [j <= i]. *)
Fixpoint shuffle_from (i : nat) (x : list nat) : St rng (list nat) :=
  match i with
  | 0 => ret x
  | S i' => (j <~ randint (S i) ;; shuffle_from i' (swap x i j))%st
  end.

Definition np_shuffle (x : list nat) : St rng (list nat) :=
  shuffle_from (length x - 1) x.

(** *** The two moons (sklearn.datasets.make_moons, called at line 45)

    Point [i] of the [n] points of each half circle; sklearn computes them
    with [cos] and [sin] of [linspace(0, pi, n)]. *)
Variable outer_circ inner_circ : nat -> nat -> Q * Q.

(** [generator.normal(scale=noise, size=(n, 2))], row by row. *)
Definition normal_rows (n : nat) (noise : Q) : St rng (list (Q * Q)) :=
  repeatM n (a <~ normal noise ;; b <~ normal noise ;; ret (a, b))%st.

(** [make_moons(n_samples, noise=noise)] with its defaults [shuffle=True]
    and [random_state=None] (NumPy's global generator): the outer half
    circle labelled 0 followed by the inner one labelled 1, then rows and
    labels permuted together by shuffled indices, then the noise added. *)
Definition make_moons (n_samples : nat) (noise : Q)
  : St rng (list (Q * Q) * list Z) :=
  let n_samples_out := n_samples / 2 in
  let n_samples_in := n_samples - n_samples_out in
  let X := map (outer_circ n_samples_out) (seq 0 n_samples_out)
           ++ map (inner_circ n_samples_in) (seq 0 n_samples_in) in
  let y := replicate n_samples_out 0%Z ++ replicate n_samples_in 1%Z in
  (indices <~ np_shuffle (seq 0 n_samples) ;;
   let X := map (fun i => X !!! i) indices in
   let y := map (fun i => y !!! i) indices in
   eps <~ normal_rows n_samples noise ;;
   ret (zip_with padd X eps, y))%st.

(** Lines 42-51.  The labels are converted to floating point on return. *)
Definition make_training_data (sample_size : nat)
  : St rng (list (Q * Q) * list Q) :=
  (moons <~ make_moons (2 * sample_size) (1 # 10) ;;
   let '(train_examples, train_labels) := moons in
   let train_examples :=
     masked_add train_examples (map (Z.eqb 0) train_labels)
                (- (1 # 10), 2 # 10)%Q in
   let train_examples :=
     masked_add train_examples (map (Z.eqb 1) train_labels)
                (1 # 10, - (2 # 10))%Q in
   ret (train_examples, map inject_Z train_labels))%st.

(** Lines 63-64: [sample_size] draws from a Gaussian with a diagonal
    covariance. *)
Definition make_ood_data (sample_size : nat) (means vars : Q * Q)
  : St rng (list (Q * Q)) :=
  repeatM sample_size (multivariate_normal means vars).

(** *** Parameters, modules and the optimizer

    A parameter is a cell of the store: its values, whether autograd
    tracks it, and its accumulated gradient ([None] until a backward pass
    writes one).  A bias is kept as a matrix of one row. *)
Record param : Type := Param {
  data : Tensor.mat;
  requires_grad : bool;
  grad : option Tensor.mat
}.

#[local] Instance param_inhabited : Inhabited param :=
  populate (Param [] false None).

Definition set_data (d : Tensor.mat) (c : param) : param :=
  Param d (requires_grad c) (grad c).
Definition set_requires_grad (b : bool) (c : param) : param :=
  Param (data c) b (grad c).
Definition set_grad (g : option Tensor.mat) (c : param) : param :=
  Param (data c) (requires_grad c) g.

(** [nn.Linear]: references to its weight and its bias. *)
Record Linear : Type := { weight : nat; bias : nat }.

(** [nn.Dropout]: the rate and the module's own training flag. *)
Record Dropout : Type := { p : Q; dropout_training : bool }.

Record DeepResnet : Type := {
  num_inputs_features : nat;
  num_layers : nat;
  num_hidden : nat;
  dropout_rate : Q;
  num_outputs : nat;
  input_layer : Linear;
  linears : list Linear;
  dropout : Dropout;
  classifier : Linear;
  training : bool
}.

(** The per-parameter state of Adam and the optimizer object. *)
Record adam_state : Type := {
  step : nat;
  exp_avg : Tensor.mat;
  exp_avg_sq : Tensor.mat
}.

Record Adam : Type := {
  params : list nat;
  lr : Q;
  state : gmap nat adam_state
}.

(** What the script writes to the standard output. *)
Inductive line : Type :=
| PrintShape (shape : list nat)
| PrintEpoch (epoch num_epochs : nat)
| PrintAvgLoss (avg_loss : Q)
| PrintAvgAcc (avg_acc : Q).

(** The state of the running process: the two global generators, the
    parameter store and the output written so far. *)
Record process : Type := Process {
  np_rng : rng;
  torch_rng : rng;
  store : list param;
  stdout : list line
}.

Definition with_np {A} (m : St rng A) : St process A :=
  fun s => let '(a, g) := m (np_rng s) in
           (a, Process g (torch_rng s) (store s) (stdout s)).

Definition with_torch {A} (m : St rng A) : St process A :=
  fun s => let '(a, g) := m (torch_rng s) in
           (a, Process (np_rng s) g (store s) (stdout s)).

Definition get_store : St process (list param) := fun s => (store s, s).

Definition put_store (st : list param) : St process unit :=
  fun s => (tt, Process (np_rng s) (torch_rng s) st (stdout s)).

Definition print (l : line) : St process unit :=
  fun s => (tt, Process (np_rng s) (torch_rng s) (store s) (stdout s ++ [l])).

(** Lines 25-26: [np.random.seed(0)] and [torch.manual_seed(0)]. *)
Definition seed_all : St process unit :=
  fun s => (tt, Process (np_seed 0) (torch_seed 0) (store s) (stdout s)).

(** A new parameter: tracked by autograd, without a gradient. *)
Definition new_param (d : Tensor.mat) : St process nat :=
  fun s => (length (store s),
            Process (np_rng s) (torch_rng s)
                    (store s ++ [Param d true None]) (stdout s)).

(** *** Construction (lines 94-116)

    A draw from the uniform distribution that [nn.Linear] initialises a
    layer of the given fan-in with. *)
Variable uniform_fan_in : nat -> rng -> Q * rng.

Definition new_Linear (in_features out_features : nat) : St process Linear :=
  (w <~ with_torch
          (repeatM out_features (repeatM in_features (uniform_fan_in in_features))) ;;
   b <~ with_torch (repeatM out_features (uniform_fan_in in_features)) ;;
   wi <~ new_param w ;;
   bi <~ new_param [b] ;;
   ret {| weight := wi; bias := bi |})%st.

Definition DeepResnet_init
    (num_inputs_features num_layers num_hidden : nat) (dropout_rate : Q)
    (num_outputs : nat) : St process DeepResnet :=
  (input_layer <~ new_Linear num_inputs_features num_hidden ;;
   linears <~ repeatM num_layers (new_Linear num_hidden num_hidden) ;;
   classifier <~ new_Linear num_hidden num_outputs ;;
   ret {| num_inputs_features := num_inputs_features;
          num_layers := num_layers;
          num_hidden := num_hidden;
          dropout_rate := dropout_rate;
          num_outputs := num_outputs;
          input_layer := input_layer;
          linears := linears;
          dropout := {| p := dropout_rate; dropout_training := true |};
          classifier := classifier;
          training := true |})%st.

(** [module.parameters()], in registration order. *)
Definition Linear_parameters (l : Linear) : list nat := [weight l; bias l].

Definition parameters (m : DeepResnet) : list nat :=
  Linear_parameters (input_layer m)
  ++ flat_map Linear_parameters (linears m)
  ++ Linear_parameters (classifier m).

(** *** The forward pass (lines 118-129) *)

(** [x @ W.T + b]. *)
Definition Linear_forward (s : list param) (l : Linear) (x : Tensor.mat)
  : Tensor.mat :=
  let W := data (s !!! weight l) in
  let b := default [] (head (data (s !!! bias l))) in
  map (fun xr => zip_with (fun w b0 => (Tensor.dot xr w + b0)%Q) W b) x.

Definition relu (x : Tensor.mat) : Tensor.mat := Tensor.mmap (Qmax 0) x.

(** Whether an entry is kept, with the given probability. *)
Variable bernoulli : Q -> rng -> bool * rng.

(** [F.dropout(x, p, training)]: in training mode every entry is zeroed
    with probability [p] and the survivors are scaled by [1 / (1 - p)];
    otherwise the input is returned and nothing is drawn. *)
Definition F_dropout (p : Q) (training : bool) (x : Tensor.mat)
  : St rng Tensor.mat :=
  if training then
    mapM (mapM (fun v => keep <~ bernoulli (1 - p) ;;
                         ret (if keep : bool then v / (1 - p) else 0)%Q)%st) x
  else ret x.

Definition Dropout_forward (d : Dropout) (x : Tensor.mat) : St rng Tensor.mat :=
  F_dropout (p d) (dropout_training d) x.

(** One turn of the loop of lines 124-125. *)
Definition resid_step (m : DeepResnet) (s : list param)
    (hidden : Tensor.mat) (resid : Linear) : St rng Tensor.mat :=
  (d <~ Dropout_forward (dropout m) (relu (Linear_forward s resid hidden)) ;;
   ret (Tensor.madd hidden d))%st.

Fixpoint foldM {S A B} (f : A -> B -> St S A) (a : A) (l : list B) : St S A :=
  match l with
  | [] => ret a
  | b :: l' => (a' <~ f a b ;; foldM f a' l')%st
  end.

Definition forward (m : DeepResnet) (s : list param) (inputs : Tensor.mat)
  : St rng Tensor.mat :=
  let hidden := Linear_forward s (input_layer m) inputs in
  (hidden <~ foldM (resid_step m s) hidden (linears m) ;;
   let out := Linear_forward s (classifier m) hidden in
   ret out)%st.

(** [resnet_model(x)]: the forward pass on the current parameters, drawing
    from torch's global generator. *)
Definition call_model (m : DeepResnet) (inputs : Tensor.mat)
  : St process Tensor.mat :=
  (s <~ get_store ;; with_torch (forward m s inputs))%st.

(** *** Autograd and Adam (lines 136-140, 158-160) *)

(** Lines 136-137: the parameters of a layer stop being tracked. *)
Definition freeze (l : Linear) : St process unit :=
  (s <~ get_store ;;
   put_store (foldl (fun s i => alter (set_requires_grad false) i s) s
                    (Linear_parameters l)))%st.

Definition zeros_like (a : Tensor.mat) : Tensor.mat :=
  Tensor.mmap (fun _ => 0%Q) a.

Definition new_Adam (params : list nat) (lr : Q) : Adam :=
  {| params := params; lr := lr; state := ∅ |}.

(** [optimizer.zero_grad()]: the gradient of every parameter of the
    optimizer is reset to [None]. *)
Definition zero_grad (opt : Adam) : St process unit :=
  (s <~ get_store ;;
   put_store (foldl (fun s i => alter (set_grad None) i s) s (params opt)))%st.

(** The gradient of the loss of one forward pass with respect to one
    parameter: a function of the parameter values, of the generator state
    the pass started from (it fixes the dropout masks), of the batch and
    of the parameter. *)
Variable autograd :
  DeepResnet -> list Tensor.mat -> rng -> Tensor.mat -> list Q -> nat -> Tensor.mat.

Definition accumulate (old : option Tensor.mat) (g : Tensor.mat)
  : option Tensor.mat :=
  match old with
  | None => Some g
  | Some g0 => Some (Tensor.madd g0 g)
  end.

(** [loss.backward()]: every tracked parameter receives its gradient; a
    parameter with [requires_grad = False] is left alone. *)
Definition backward (m : DeepResnet) (g0 : rng) (x : Tensor.mat) (y : list Q)
  : St process unit :=
  (s <~ get_store ;;
   put_store
     (imap (fun i c =>
              if requires_grad c
              then set_grad (accumulate (grad c)
                               (autograd m (map data s) g0 x y i)) c
              else c) s))%st.

(** Adam's update of one parameter from its gradient: the new state and
    the new values. *)
Variable adam_rule :
  Q -> adam_state -> Tensor.mat -> Tensor.mat -> adam_state * Tensor.mat.

(** One parameter of [optimizer.step()]: skipped when it has no gradient;
    otherwise its state is created on first use and the update is written
    into the parameter in place. *)
Definition adam_step_param (lr : Q)
    (acc : gmap nat adam_state * list param) (i : nat)
  : gmap nat adam_state * list param :=
  let '(st, s) := acc in
  match s !! i with
  | Some c =>
      match grad c with
      | Some g =>
          let a := default {| step := 0;
                              exp_avg := zeros_like (data c);
                              exp_avg_sq := zeros_like (data c) |} (st !! i) in
          let '(a', d') := adam_rule lr a (data c) g in
          (<[i := a']> st, <[i := set_data d' c]> s)
      | None => acc
      end
  | None => acc
  end.

Definition Adam_step (opt : Adam) : St process Adam :=
  (s <~ get_store ;;
   let '(st, s') := foldl (adam_step_param (lr opt)) (state opt, s) (params opt) in
   _ <~ put_store s' ;;
   ret {| params := params opt; lr := lr opt; state := st |})%st.

(** *** The data loader (lines 144-145) *)

(** [torch.randperm(n, generator)]: for [i] from 0 to [n - 2], swap entry
    [i] with the entry [z] places further, [z] drawn below [n - i]. *)
Fixpoint randperm_from (k i : nat) (r : list nat) : St rng (list nat) :=
  match k with
  | 0 => ret r
  | S k' =>
      (z <~ randint (length r - i) ;; randperm_from k' (S i) (swap r i (z + i)))%st
  end.

Definition randperm (n : nat) : St rng (list nat) :=
  randperm_from (n - 1) 0 (seq 0 n).

(** The sampler of a shuffling loader: a seed is drawn from the global
    generator, and the permutation from a fresh generator on that seed. *)
Definition RandomSampler (n : nat) : St rng (list nat) :=
  (seed <~ next ;; ret (fst (randperm n (torch_seed seed))))%st.

(** Consecutive batches of [batch_size] indices, the last one shorter when
    the division leaves a rest ([drop_last=False]). *)
Fixpoint batches_fuel (fuel batch_size : nat) (l : list nat) : list (list nat) :=
  match fuel with
  | 0 => []
  | S f =>
      match l with
      | [] => []
      | _ => take batch_size l :: batches_fuel f batch_size (drop batch_size l)
      end
  end.

Definition BatchSampler (batch_size : nat) (l : list nat) : list (list nat) :=
  batches_fuel (length l) batch_size l.

Record DataLoader : Type := {
  examples : list (Q * Q);
  labels : list Q;
  batch_size : nat
}.

Definition row_of (pt : Q * Q) : list Q := [fst pt; snd pt].

(** One pass over the loader: the iterator draws its base seed from the
    global generator, then the sampler its own; the batches are collated to
    their examples and their labels. *)
Definition DataLoader_iter (dl : DataLoader)
  : St process (list (Tensor.mat * list Q)) :=
  (_base_seed <~ with_torch next ;;
   indices <~ with_torch (RandomSampler (length (examples dl))) ;;
   ret (map (fun b => (map (fun i => row_of (examples dl !!! i)) b,
                       map (fun i => labels dl !!! i) b))
            (BatchSampler (batch_size dl) indices)))%st.

(** *** The training loop (lines 147-170) *)

Variable sigmoid : Q -> Q.
Variable BCELoss : list Q -> list Q -> Q.

(** [t.squeeze()] of a column: its entries. *)
Definition squeeze (t : Tensor.mat) : list Q := concat t.

Definition average (xs : list Q) : Q := (Tensor.qsum xs / Qnat (length xs))%Q.

(** [torch.mean(((probabilities > 0.5).float() == y_train).float())]. *)
Definition accuracy (probabilities y_train : list Q) : Q :=
  average (zip_with (fun pr y =>
                       let prediction := if Qle_bool pr (1 # 2) then 0%Q else 1%Q in
                       if Qeq_bool prediction y then 1%Q else 0%Q)
                    probabilities y_train).

(** What one minibatch leaves behind: its loss, its accuracy and (for the
    statements below) the parameter store after the optimizer step. *)
Record batch_log : Type := {
  batch_loss : Q;
  batch_acc : Q;
  batch_store : list param
}.

(** Lines 152-164. *)
Definition train_batch (m : DeepResnet) (opt : Adam)
    (samples : Tensor.mat * list Q) : St process (Adam * batch_log) :=
  let '(x_train, y_train) := samples in
  (g0 <~ with_torch (fun g => (g, g)) ;;
   logits <~ call_model m x_train ;;
   let probabilities := squeeze (Tensor.mmap sigmoid logits) in
   let loss := BCELoss probabilities y_train in
   _ <~ zero_grad opt ;;
   _ <~ backward m g0 x_train y_train ;;
   opt <~ Adam_step opt ;;
   s <~ get_store ;;
   ret (opt, {| batch_loss := loss;
                batch_acc := accuracy probabilities y_train;
                batch_store := s |}))%st.

Fixpoint train_batches (m : DeepResnet) (opt : Adam)
    (bs : list (Tensor.mat * list Q)) : St process (Adam * list batch_log) :=
  match bs with
  | [] => ret (opt, [])
  | samples :: bs' =>
      (r <~ train_batch m opt samples ;;
       rs <~ train_batches m (fst r) bs' ;;
       ret (fst rs, snd r :: snd rs))%st
  end.

Record epoch_log : Type := {
  epoch_batches : list batch_log;
  avg_loss : Q;
  avg_acc : Q
}.

(** The body of the loop over the epochs (lines 148-170). *)
Definition train_epoch (m : DeepResnet) (dl : DataLoader) (num_epochs : nat)
    (opt : Adam) (epoch : nat) : St process (Adam * epoch_log) :=
  (_ <~ print (PrintEpoch (epoch + 1) num_epochs) ;;
   bs <~ DataLoader_iter dl ;;
   r <~ train_batches m opt bs ;;
   let losses := map batch_loss (snd r) in
   let accs := map batch_acc (snd r) in
   let avg_loss := average losses in
   let avg_acc := average accs in
   _ <~ print (PrintAvgLoss avg_loss) ;;
   _ <~ print (PrintAvgAcc avg_acc) ;;
   ret (fst r, {| epoch_batches := snd r;
                  avg_loss := avg_loss;
                  avg_acc := avg_acc |}))%st.

(** [for epoch in range(num_epochs)], on the list of the epochs left. *)
Fixpoint train_epochs (m : DeepResnet) (dl : DataLoader) (num_epochs : nat)
    (opt : Adam) (epochs : list nat) : St process (Adam * list epoch_log) :=
  match epochs with
  | [] => ret (opt, [])
  | epoch :: rest =>
      (r <~ train_epoch m dl num_epochs opt epoch ;;
       rs <~ train_epochs m dl num_epochs (fst r) rest ;;
       ret (fst rs, snd r :: snd rs))%st
  end.

Definition train (m : DeepResnet) (dl : DataLoader) (num_epochs : nat)
    (opt : Adam) : St process (Adam * list epoch_log) :=
  train_epochs m dl num_epochs opt (seq 0 num_epochs).

(** *** The script, top to bottom *)

(** What a run leaves behind.  The figures are rendering only; of each
    surface the array handed to [imshow] is kept. *)
Record results : Type := {
  r_train_examples : list (Q * Q);
  r_train_labels : list Q;
  r_test_examples : list (Q * Q);
  r_ood_examples : list (Q * Q);
  r_model : DeepResnet;
  r_optimizer : Adam;
  r_initial_store : list param;
  r_history : list epoch_log;
  r_logits : Tensor.mat;
  r_probs : list Q;
  r_uncertainty : list Q;
  r_probability_surface : option (list (list fval));
  r_uncertainty_surface : option (list (list fval))
}.

(** Lines 133-145: the model, the frozen first layer, the optimizer and
    the loader; then the loop of lines 147-170. *)
Definition fit (train_examples : list (Q * Q)) (train_labels : list Q)
  : St process (DeepResnet * list param * (Adam * list epoch_log)) :=
  (resnet_model <~ DeepResnet_init 2 6 128 (1 # 100) 1 ;;
   _ <~ freeze (input_layer resnet_model) ;;
   let optimizer := new_Adam (parameters resnet_model) (1 # 10000) in
   let num_epochs := 100 in
   let batch_size := 128 in
   let dataloader := {| examples := train_examples;
                        labels := train_labels;
                        batch_size := batch_size |} in
   s0 <~ get_store ;;
   h <~ train resnet_model dataloader num_epochs optimizer ;;
   ret (resnet_model, s0, h))%st.

(** Lines 209-232: the two surfaces. *)
Definition surfaces (resnet_model : DeepResnet)
  : St process (Tensor.mat * list Q * list Q) :=
  (resnet_logits <~ call_model resnet_model (map row_of test_examples) ;;
   let resnet_probs :=
     map (fun l => (1 - sigmoid l)%Q) (squeeze resnet_logits) in
   ret (resnet_logits, resnet_probs, resnet_uncertainty resnet_probs))%st.

(** Everything after the two seeds. *)
Definition main : St process results :=
  (tr <~ with_np (make_training_data 500) ;;
   ood_examples <~ with_np (make_ood_data 500 (5 # 2, - (7 # 4))%Q
                                          (1 # 100, 1 # 100)%Q) ;;
   _ <~ print (PrintShape [length (fst tr); 2]) ;;
   _ <~ print (PrintShape [length (snd tr)]) ;;
   _ <~ print (PrintShape [length test_examples; 2]) ;;
   _ <~ print (PrintShape [length ood_examples; 2]) ;;
   f <~ fit (fst tr) (snd tr) ;;
   sf <~ surfaces (fst (fst f)) ;;
   ret {| r_train_examples := fst tr;
          r_train_labels := snd tr;
          r_test_examples := test_examples;
          r_ood_examples := ood_examples;
          r_model := fst (fst f);
          r_optimizer := fst (snd f);
          r_initial_store := snd (fst f);
          r_history := snd (snd f);
          r_logits := fst (fst sf);
          r_probs := snd (fst sf);
          r_uncertainty := snd sf;
          r_probability_surface := plot_uncertainty_surface (snd (fst sf));
          r_uncertainty_surface := plot_uncertainty_surface (snd sf) |})%st.

Definition script : St process results :=
  (_ <~ seed_all ;; main)%st.

(** A run of the script by a process whose generators start in the states
    [g_np] and [g_torch]. *)
Definition run (g_np g_torch : rng) : results * process :=
  script (Process g_np g_torch [] []).

(** ** Predicates and reference definitions on the script *)

(** The forward pass in the words of its description: project the input,
    then run the residual blocks number 0, 1, ..., [num_layers - 1] in
    turn, each adding the dropped-out rectified block output to the hidden
    state, then project to the logit and return it as it is. *)
Fixpoint spec_blocks (m : DeepResnet) (s : list param) (todo i : nat)
    (hidden : Tensor.mat) : St rng Tensor.mat :=
  match todo with
  | 0 => ret hidden
  | S todo' =>
      match linears m !! i with
      | Some block =>
          (d <~ Dropout_forward (dropout m) (relu (Linear_forward s block hidden)) ;;
           spec_blocks m s todo' (S i) (Tensor.madd hidden d))%st
      | None => ret hidden
      end
  end.

Definition spec_forward (m : DeepResnet) (s : list param) (inputs : Tensor.mat)
  : St rng Tensor.mat :=
  (hidden <~ spec_blocks m s (num_layers m) 0
               (Linear_forward s (input_layer m) inputs) ;;
   ret (Linear_forward s (classifier m) hidden))%st.

(** Parameter [i] holds the values [d], is not tracked by autograd and has
    no gradient. *)
Definition frozen_at (i : nat) (d : Tensor.mat) (s : list param) : Prop :=
  exists c, s !! i = Some c
            /\ data c = d /\ requires_grad c = false /\ grad c = None.

(** Parameter [i] holds the values [d]. *)
Definition holds_at (i : nat) (d : Tensor.mat) (s : list param) : Prop :=
  exists c, s !! i = Some c /\ data c = d.

(** What one epoch prints. *)
Definition epoch_lines (num_epochs : nat) (e : nat * epoch_log) : list line :=
  [PrintEpoch (fst e + 1) num_epochs;
   PrintAvgLoss (avg_loss (snd e));
   PrintAvgAcc (avg_acc (snd e))].

(** An epoch that ran [n] minibatches and reports their averages. *)
Definition epoch_ok (n : nat) (log : epoch_log) : Prop :=
  length (epoch_batches log) = n
  /\ avg_loss log = average (map batch_loss (epoch_batches log))
  /\ avg_acc log = average (map batch_acc (epoch_batches log)).

Definition epoch_frozen (i : nat) (d : Tensor.mat) (log : epoch_log) : Prop :=
  Forall (fun b => frozen_at i d (batch_store b)) (epoch_batches log).

(** The four shapes printed by lines 70-73. *)
Definition shape_lines : list line :=
  [PrintShape [1000; 2]; PrintShape [1000];
   PrintShape [10000; 2]; PrintShape [500; 2]].

(** The values of the two parameters of a layer in a store. *)
Definition layer_values (l : Linear) (w b : Tensor.mat) (s : list param) : Prop :=
  holds_at (weight l) w s /\ holds_at (bias l) b s.

(** * Properties of the script *)

(** ** Properties of the data synthesis *)

Lemma swap_Permutation {A} (x : list A) (i j : nat) : swap x i j ≡ₚ x.
Proof.
  unfold swap.
  destruct (x !! i) as [a|] eqn:Hi; [|reflexivity].
  destruct (x !! j) as [b|] eqn:Hj; [|reflexivity].
  apply Permutation_insert_swap; assumption.
Qed.

Lemma shuffle_from_Permutation (i : nat) (x : list nat) (g : rng) :
  fst (shuffle_from i x g) ≡ₚ x.
Proof.
  revert x g. induction i as [|i IH]; intros x g.
  - reflexivity.
  - cbn [shuffle_from]. unfold bind, randint.
    destruct (next g) as [u g']. rewrite IH. apply swap_Permutation.
Qed.

Lemma np_shuffle_Permutation (x : list nat) (g : rng) :
  fst (np_shuffle x g) ≡ₚ x.
Proof. apply shuffle_from_Permutation. Qed.

Lemma repeatM_length {S A} (n : nat) (m : St S A) (s : S) :
  length (fst (repeatM n m s)) = n.
Proof.
  revert s. induction n as [|n IH]; intros s; [reflexivity|].
  cbn [repeatM]. unfold bind. destruct (m s) as [a s1].
  specialize (IH s1). destruct (repeatM n m s1) as [rest s2].
  simpl in *. lia.
Qed.

Lemma lookup_total_seq_map {A} `{!Inhabited A} (y : list A) :
  map (fun i => y !!! i) (seq 0 (length y)) = y.
Proof.
  apply list_eq. intros i. rewrite list_lookup_fmap.
  destruct (decide (i < length y)) as [H | H].
  - rewrite lookup_seq_lt by assumption. simpl.
    apply lookup_lt_is_Some in H as [a Ha].
    rewrite Ha. f_equal. apply list_lookup_total_correct. assumption.
  - rewrite lookup_seq_ge by lia. rewrite lookup_ge_None_2 by lia. reflexivity.
Qed.

Lemma count_label_Permutation (l : Q) (a b : list Q) :
  a ≡ₚ b -> count_label l a = count_label l b.
Proof.
  unfold count_label. induction 1 as [|x a b _ IH|x y a|a b c _ IH1 _ IH2]; simpl.
  - reflexivity.
  - destruct (Qeq_bool l x); simpl; lia.
  - destruct (Qeq_bool l x), (Qeq_bool l y); reflexivity.
  - lia.
Qed.

Lemma count_label_app (l : Q) (a b : list Q) :
  count_label l (a ++ b) = count_label l a + count_label l b.
Proof. unfold count_label. rewrite List.filter_app, length_app. reflexivity. Qed.

Lemma count_label_replicate (l q : Q) (n : nat) :
  count_label l (replicate n q) = if Qeq_bool l q then n else 0.
Proof.
  unfold count_label. induction n as [|n IH]; simpl.
  - destruct (Qeq_bool l q); reflexivity.
  - destruct (Qeq_bool l q); simpl; lia.
Qed.

(** The labels of the moons: the [n / 2] zeros and the other ones, in the
    order of the shuffled indices. *)
Lemma make_moons_labels (n : nat) (noise : Q) (g : rng) :
  snd (fst (make_moons n noise g))
  ≡ₚ replicate (n / 2) 0%Z ++ replicate (n - n / 2) 1%Z.
Proof.
  unfold make_moons, bind.
  pose proof (np_shuffle_Permutation (seq 0 n) g) as Hp.
  destruct (np_shuffle (seq 0 n) g) as [indices g1].
  destruct (normal_rows n noise g1) as [eps g2].
  cbn [fst snd ret] in *.
  set (y := replicate (n / 2) 0%Z ++ replicate (n - n / 2) 1%Z).
  assert (Hlen : length y = n).
  { unfold y. rewrite length_app, !length_replicate.
    pose proof (Nat.Div0.div_le_upper_bound n 2 n). lia. }
  rewrite Hp. rewrite <- Hlen at 1. rewrite lookup_total_seq_map. reflexivity.
Qed.

Lemma make_moons_lengths (n : nat) (noise : Q) (g : rng) :
  length (fst (fst (make_moons n noise g))) = n
  /\ length (snd (fst (make_moons n noise g))) = n.
Proof.
  split.
  - unfold make_moons, bind.
    pose proof (np_shuffle_Permutation (seq 0 n) g) as Hp.
    destruct (np_shuffle (seq 0 n) g) as [indices g1].
    pose proof (repeatM_length n
      (a <~ normal noise ;; b <~ normal noise ;; ret (a, b))%st g1) as He.
    fold (normal_rows n noise) in He.
    destruct (normal_rows n noise g1) as [eps g2].
    cbn [fst snd ret] in *.
    apply Permutation_length in Hp. rewrite length_seq in Hp.
    rewrite length_zip_with, length_map. lia.
  - rewrite (Permutation_length (make_moons_labels n noise g)).
    rewrite length_app, !length_replicate.
    pose proof (Nat.Div0.div_le_upper_bound n 2 n). lia.
Qed.

Lemma make_training_data_unfold (sample_size : nat) (g : rng) :
  fst (make_training_data sample_size g)
  = (let moons := fst (make_moons (2 * sample_size) (1 # 10) g) in
     (masked_add
        (masked_add (fst moons) (map (Z.eqb 0) (snd moons)) (- (1 # 10), 2 # 10)%Q)
        (map (Z.eqb 1) (snd moons)) (1 # 10, - (2 # 10))%Q,
      map inject_Z (snd moons))).
Proof.
  unfold make_training_data, bind.
  destruct (make_moons (2 * sample_size) (1 # 10) g) as [[X y] g'].
  reflexivity.
Qed.

Lemma masked_add_twice (X : list (Q * Q)) (y : list Z) :
  Forall (fun l => l = 0%Z \/ l = 1%Z) y ->
  masked_add (masked_add X (map (Z.eqb 0) y) (- (1 # 10), 2 # 10)%Q)
             (map (Z.eqb 1) y) (1 # 10, - (2 # 10))%Q
  = zip_with (fun pt l => padd pt (shift_of l)) X y.
Proof.
  intros Hy. revert X. induction Hy as [|l y Hl _ IH]; intros X.
  - destruct X; reflexivity.
  - destruct X as [|pt X]; [reflexivity|].
    unfold masked_add in *. cbn [map zip_with]. rewrite IH.
    destruct Hl as [-> | ->]; reflexivity.
Qed.

Lemma make_training_data_spec (sample_size : nat) (g : rng) :
  let moons := fst (make_moons (2 * sample_size) (1 # 10) g) in
  let out := fst (make_training_data sample_size g) in
  length (fst out) = 2 * sample_size
  /\ length (snd out) = 2 * sample_size
  /\ Forall (fun y => y = 0%Q \/ y = 1%Q) (snd out)
  /\ count_label 0 (snd out) = sample_size
  /\ count_label 1 (snd out) = sample_size
  /\ snd out = map inject_Z (snd moons)
  /\ fst out = zip_with (fun pt l => padd pt (shift_of l)) (fst moons) (snd moons).
Proof.
  intros moons out. subst out. rewrite make_training_data_unfold.
  fold moons. cbn [fst snd].
  pose proof (make_moons_labels (2 * sample_size) (1 # 10) g) as Hp.
  destruct (make_moons_lengths (2 * sample_size) (1 # 10) g) as [HlX Hly].
  fold moons in Hp, HlX, Hly.
  replace (2 * sample_size / 2) with sample_size in Hp
    by (rewrite Nat.mul_comm, Nat.div_mul; lia).
  replace (2 * sample_size - sample_size) with sample_size in Hp by lia.
  assert (H01 : Forall (fun l => l = 0%Z \/ l = 1%Z) (snd moons)).
  { rewrite Hp. apply Forall_app. split; apply Forall_replicate; auto. }
  assert (Hq : map inject_Z (snd moons)
               ≡ₚ replicate sample_size 0%Q ++ replicate sample_size 1%Q).
  { rewrite Hp, map_app, !fmap_replicate. reflexivity. }
  rewrite (masked_add_twice _ _ H01).
  repeat split.
  - rewrite length_zip_with. lia.
  - rewrite length_map. exact Hly.
  - rewrite Hq. apply Forall_app. split; apply Forall_replicate; auto.
  - rewrite (count_label_Permutation _ _ _ Hq), count_label_app,
      !count_label_replicate. simpl. lia.
  - rewrite (count_label_Permutation _ _ _ Hq), count_label_app,
      !count_label_replicate. simpl. lia.
Qed.

(** C5.  [make_training_data(500)] returns exactly 1000 points and 1000
    labels; every label is 0 or 1 and each occurs exactly 500 times; and
    the returned points are the points of [make_moons], each label-0 point
    shifted by (-0.1, 0.2) and each label-1 point by (0.1, -0.2).  This
    holds from every state of NumPy's generator. *)
Theorem make_training_data_500 (g : rng) :
  let moons := fst (make_moons 1000 (1 # 10) g) in
  let out := fst (make_training_data 500 g) in
  length (fst out) = 1000
  /\ length (snd out) = 1000
  /\ Forall (fun y => y = 0%Q \/ y = 1%Q) (snd out)
  /\ count_label 0 (snd out) = 500
  /\ count_label 1 (snd out) = 500
  /\ snd out = map inject_Z (snd moons)
  /\ fst out = zip_with (fun pt l => padd pt (shift_of l)) (fst moons) (snd moons)
  /\ shift_of 0 = (- (1 # 10), 2 # 10)%Q
  /\ shift_of 1 = (1 # 10, - (2 # 10))%Q.
Proof.
  intros moons out.
  pose proof (make_training_data_spec 500 g) as H.
  change (2 * 500) with 1000 in H. cbv zeta in H.
  fold moons out in H.
  destruct H as (H1 & H2 & H3 & H4 & H5 & H6 & H7).
  repeat split; assumption.
Qed.

(** ** Properties of the model *)

Lemma with_torch_store {A} (c : St rng A) (s : process) :
  store (snd (with_torch c s)) = store s
  /\ stdout (snd (with_torch c s)) = stdout s
  /\ np_rng (snd (with_torch c s)) = np_rng s.
Proof. unfold with_torch. destruct (c (torch_rng s)). auto. Qed.

(** A new layer appends its two parameters to the store, tracked and
    without gradient, and refers to them. *)
Lemma new_Linear_store (n_in n_out : nat) (s : process) :
  exists w b,
    store (snd (new_Linear n_in n_out s))
    = store s ++ [Param w true None; Param b true None]
    /\ fst (new_Linear n_in n_out s)
       = {| weight := length (store s); bias := S (length (store s)) |}
    /\ stdout (snd (new_Linear n_in n_out s)) = stdout s.
Proof.
  unfold new_Linear, bind.
  destruct (with_torch_store
    (repeatM n_out (repeatM n_in (uniform_fan_in n_in))) s) as (E1 & O1 & _).
  destruct (with_torch _ s) as [w s1]. cbn [snd] in E1, O1.
  destruct (with_torch_store (repeatM n_out (uniform_fan_in n_in)) s1)
    as (E2 & O2 & _).
  destruct (with_torch _ s1) as [b s2]. cbn [snd] in E2, O2.
  unfold new_param, ret. cbn [fst snd store stdout].
  exists w, [b]. rewrite E2, E1, O2, O1, <- app_assoc, length_app.
  cbn [length app]. repeat split. f_equal. f_equal. lia.
Qed.

Lemma repeatM_new_Linear_store (k n_in n_out : nat) (s : process) :
  exists ext,
    store (snd (repeatM k (new_Linear n_in n_out) s)) = store s ++ ext
    /\ stdout (snd (repeatM k (new_Linear n_in n_out) s)) = stdout s.
Proof.
  revert s. induction k as [|k IH]; intros s.
  - exists []. cbn. rewrite app_nil_r. auto.
  - cbn [repeatM]. unfold bind.
    destruct (new_Linear_store n_in n_out s) as (w & b & E & _ & O).
    destruct (new_Linear n_in n_out s) as [l s1]. cbn [snd] in E, O.
    destruct (IH s1) as (ext & E' & O').
    destruct (repeatM k (new_Linear n_in n_out) s1) as [ls s2].
    cbn [snd ret] in *. rewrite E', E, O', O, <- app_assoc. eauto.
Qed.

(** What the constructor builds. *)
Lemma DeepResnet_init_spec (n_in n_layers n_hidden : nat) (rate : Q)
    (n_out : nat) (s : process) :
  let m := fst (DeepResnet_init n_in n_layers n_hidden rate n_out s) in
  let s' := snd (DeepResnet_init n_in n_layers n_hidden rate n_out s) in
  num_layers m = n_layers
  /\ length (linears m) = n_layers
  /\ dropout m = {| p := rate; dropout_training := true |}
  /\ training m = true
  /\ input_layer m = {| weight := length (store s); bias := S (length (store s)) |}
  /\ (exists w b ext,
        store s' = store s ++ Param w true None :: Param b true None :: ext)
  /\ stdout s' = stdout s.
Proof.
  unfold DeepResnet_init, bind.
  destruct (new_Linear_store n_in n_hidden s) as (w & b & E1 & R1 & O1).
  destruct (new_Linear n_in n_hidden s) as [il s1]. cbn [fst snd] in E1, R1, O1.
  pose proof (repeatM_length n_layers (new_Linear n_hidden n_hidden) s1) as Hlen.
  destruct (repeatM_new_Linear_store n_layers n_hidden n_hidden s1)
    as (ext & E2 & O2).
  destruct (repeatM n_layers (new_Linear n_hidden n_hidden) s1) as [ls s2].
  cbn [fst snd] in Hlen, E2, O2.
  destruct (new_Linear_store n_hidden n_out s2) as (w' & b' & E3 & _ & O3).
  destruct (new_Linear n_hidden n_out s2) as [cl s3]. cbn [fst snd] in E3, O3.
  cbn. repeat split; try assumption.
  - exists w, b, (ext ++ [Param w' true None; Param b' true None]).
    rewrite E3, E2, E1, <- !app_assoc. reflexivity.
  - congruence.
Qed.

Lemma foldM_spec_blocks (m : DeepResnet) (s : list param) (done : list Linear)
    (rest : list Linear) (hidden : Tensor.mat) (g : rng) :
  linears m = done ++ rest ->
  foldM (resid_step m s) hidden rest g
  = spec_blocks m s (length rest) (length done) hidden g.
Proof.
  revert done hidden g. induction rest as [|block rest IH]; intros done hidden g H.
  - reflexivity.
  - cbn [foldM length spec_blocks].
    assert (Hl : linears m !! length done = Some block).
    { rewrite H. rewrite lookup_app_r by lia.
      rewrite Nat.sub_diag. reflexivity. }
    rewrite Hl. unfold bind, resid_step at 1, bind, ret.
    destruct (Dropout_forward (dropout m)
                (relu (Linear_forward s block hidden)) g) as [d g'].
    specialize (IH (done ++ [block]) (Tensor.madd hidden d) g').
    rewrite length_app in IH. cbn [length] in IH.
    replace (length done + 1) with (S (length done)) in IH by lia.
    apply IH. rewrite H, <- app_assoc. reflexivity.
Qed.

(** C2.  On a model built by the constructor, for every parameter store,
    input and generator state, [forward] computes what the description
    says: the input projection, then the [num_layers] residual blocks in
    order, each as [hidden + dropout(relu(block(hidden)))], then the
    classifier, whose output is returned as it is (no sigmoid). *)
Theorem forward_as_described (n_in n_layers n_hidden : nat) (rate : Q)
    (n_out : nat) (s0 : process) (s : list param) (inputs : Tensor.mat)
    (g : rng) :
  let m := fst (DeepResnet_init n_in n_layers n_hidden rate n_out s0) in
  forward m s inputs g = spec_forward m s inputs g
  /\ num_layers m = n_layers
  /\ length (linears m) = n_layers.
Proof.
  intros m.
  destruct (DeepResnet_init_spec n_in n_layers n_hidden rate n_out s0)
    as (Hn & Hl & _).
  fold m in Hn, Hl. split; [|split; assumption].
  unfold forward, spec_forward, bind.
  rewrite (foldM_spec_blocks m s [] (linears m)) by reflexivity.
  rewrite Hl, Hn. reflexivity.
Qed.

(** ** The frozen first layer *)

Lemma frozen_holds (i : nat) (d : Tensor.mat) (s : list param) :
  frozen_at i d s -> holds_at i d s.
Proof. intros (c & H & Hd & _). exists c. auto. Qed.

Lemma zero_grad_frozen (i : nat) (d : Tensor.mat) (js : list nat)
    (s : list param) :
  frozen_at i d s ->
  frozen_at i d (foldl (fun s j => alter (set_grad None) j s) s js).
Proof.
  revert s. induction js as [|j js IH]; intros s H; [exact H|].
  cbn [foldl]. apply IH. destruct H as (c & Hc & Hd & Hr & Hg).
  destruct (decide (j = i)) as [-> | Hne].
  - exists (set_grad None c). rewrite list_lookup_alter_eq, Hc. auto.
  - exists c. rewrite list_lookup_alter_ne by assumption. auto.
Qed.

Lemma backward_frozen (i : nat) (d : Tensor.mat) (s : list param)
    (gr : nat -> Tensor.mat) :
  frozen_at i d s ->
  frozen_at i d
    (imap (fun j c => if requires_grad c
                      then set_grad (accumulate (grad c) (gr j)) c
                      else c) s).
Proof.
  intros (c & Hc & Hd & Hr & Hg). exists c.
  rewrite list_lookup_imap, Hc. cbn. rewrite Hr. auto.
Qed.

Lemma adam_step_param_frozen (i : nat) (d : Tensor.mat) (rate : Q)
    (acc : gmap nat adam_state * list param) (j : nat) :
  frozen_at i d (snd acc) ->
  frozen_at i d (snd (adam_step_param rate acc j)).
Proof.
  destruct acc as [st s]. cbn [snd]. intros (c & Hc & Hd & Hr & Hg).
  unfold adam_step_param.
  destruct (s !! j) as [cj|] eqn:Hj; [|exists c; auto].
  destruct (grad cj) as [g|] eqn:Hgj; [|exists c; auto].
  destruct (adam_rule rate _ (data cj) g) as [a' d']. cbn [snd].
  destruct (decide (j = i)) as [-> | Hne].
  - congruence.
  - exists c. rewrite list_lookup_insert_ne by assumption. auto.
Qed.

Lemma Adam_fold_frozen (i : nat) (d : Tensor.mat) (rate : Q) (js : list nat)
    (acc : gmap nat adam_state * list param) :
  frozen_at i d (snd acc) ->
  frozen_at i d (snd (foldl (adam_step_param rate) acc js)).
Proof.
  revert acc. induction js as [|j js IH]; intros acc H; [exact H|].
  cbn [foldl]. apply IH, adam_step_param_frozen, H.
Qed.

(** One minibatch: the store it leaves is the one recorded in its log,
    nothing is printed, and a frozen parameter stays as it is. *)
Lemma train_batch_spec (m : DeepResnet) (opt : Adam)
    (samples : Tensor.mat * list Q) (s : process) :
  let r := train_batch m opt samples s in
  batch_store (snd (fst r)) = store (snd r)
  /\ stdout (snd r) = stdout s
  /\ params (fst (fst r)) = params opt
  /\ forall i d, frozen_at i d (store s) -> frozen_at i d (store (snd r)).
Proof.
  destruct samples as [x y].
  unfold train_batch, call_model, zero_grad, backward, Adam_step, bind,
    get_store, put_store, with_torch, ret.
  cbn [fst snd store stdout torch_rng np_rng].
  destruct (forward m (store s) x (torch_rng s)) as [logits g'].
  cbn [fst snd store stdout torch_rng np_rng].
  match goal with
  | |- context [foldl (adam_step_param ?r) ?a ?js] =>
      pose proof (fun i d => Adam_fold_frozen i d r js a) as HA;
      destruct (foldl (adam_step_param r) a js) as [st s'] eqn:E
  end.
  cbn [fst snd store stdout torch_rng np_rng params] in *.
  repeat split.
  intros i d H. apply HA. apply backward_frozen, zero_grad_frozen, H.
Qed.

Lemma train_batches_spec (m : DeepResnet) (bs : list (Tensor.mat * list Q))
    (opt : Adam) (s : process) :
  let r := train_batches m opt bs s in
  length (snd (fst r)) = length bs
  /\ stdout (snd r) = stdout s
  /\ params (fst (fst r)) = params opt
  /\ forall i d, frozen_at i d (store s) ->
       frozen_at i d (store (snd r))
       /\ Forall (fun b => frozen_at i d (batch_store b)) (snd (fst r)).
Proof.
  revert opt s. induction bs as [|samples bs IH]; intros opt s.
  - cbn. repeat split; auto.
  - cbn [train_batches]. unfold bind.
    destruct (train_batch_spec m opt samples s) as (Hb & Ho & Hp & Hf).
    destruct (train_batch m opt samples s) as [[opt1 log] s1].
    cbn [fst snd] in Hb, Ho, Hp, Hf |- *.
    destruct (IH opt1 s1) as (Hl & Ho' & Hp' & Hf').
    destruct (train_batches m opt1 bs s1) as [[opt2 logs] s2].
    cbn [fst snd ret length] in *.
    split; [lia|]. split; [congruence|]. split; [congruence|].
    intros i d H. specialize (Hf i d H). destruct (Hf' i d Hf) as [H1 H2].
    split; [exact H1|]. constructor; [rewrite Hb; exact Hf | exact H2].
Qed.

(** *** The number of minibatches *)

Lemma swap_length {A} (x : list A) (i j : nat) : length (swap x i j) = length x.
Proof.
  unfold swap. destruct (x !! i), (x !! j); try reflexivity.
  rewrite !length_insert. reflexivity.
Qed.

Lemma randperm_from_length (k i : nat) (r : list nat) (g : rng) :
  length (fst (randperm_from k i r g)) = length r.
Proof.
  revert i r g. induction k as [|k IH]; intros i r g; [reflexivity|].
  cbn [randperm_from]. unfold bind, randint.
  destruct (next g) as [u g']. rewrite IH. apply swap_length.
Qed.

Lemma RandomSampler_length (n : nat) (g : rng) :
  length (fst (RandomSampler n g)) = n.
Proof.
  unfold RandomSampler, bind. destruct (next g) as [seed g'].
  cbn [fst ret]. unfold randperm.
  rewrite randperm_from_length. apply length_seq.
Qed.

Lemma batches_fuel_length (fuel size : nat) (l : list nat) :
  0 < size -> length l <= fuel ->
  length (batches_fuel fuel size l) = (length l + size - 1) / size.
Proof.
  intros Hsize. revert l. induction fuel as [|fuel IH]; intros l Hl.
  - destruct l; [|simpl in Hl; lia]. cbn.
    symmetry. apply Nat.div_small. lia.
  - destruct l as [|a l].
    + cbn. symmetry. apply Nat.div_small. lia.
    + cbn [batches_fuel length]. rewrite IH.
      2: { rewrite length_drop. cbn [length] in *. lia. }
      rewrite length_drop. cbn [length].
      destruct (le_lt_dec size (S (length l))) as [Hge | Hlt].
      * replace (S (length l) + size - 1) with (S (length l) - size + size - 1 + 1 * size) by lia.
        rewrite Nat.div_add by lia. lia.
      * replace (S (length l) - size + size - 1) with (size - 1) by lia.
        rewrite (Nat.div_small (size - 1)) by lia.
        apply (Nat.div_unique _ _ 1 (length l)); lia.
Qed.

Lemma BatchSampler_length (size : nat) (l : list nat) :
  0 < size -> length (BatchSampler size l) = (length l + size - 1) / size.
Proof. intros H. apply batches_fuel_length; [assumption | lia]. Qed.

Lemma DataLoader_iter_spec (dl : DataLoader) (s : process) :
  0 < batch_size dl ->
  let r := DataLoader_iter dl s in
  length (fst r)
  = (length (examples dl) + batch_size dl - 1) / batch_size dl
  /\ store (snd r) = store s
  /\ stdout (snd r) = stdout s.
Proof.
  intros Hsize. unfold DataLoader_iter, bind, with_torch.
  destruct (next (torch_rng s)) as [base_seed g0].
  cbn [fst snd store stdout torch_rng np_rng].
  pose proof (RandomSampler_length (length (examples dl)) g0) as Hl.
  destruct (RandomSampler (length (examples dl)) g0) as [indices g'].
  cbn [fst snd ret store stdout] in *.
  rewrite length_map, BatchSampler_length, Hl by assumption. auto.
Qed.

Lemma train_epoch_spec (m : DeepResnet) (dl : DataLoader) (num_epochs : nat)
    (opt : Adam) (epoch : nat) (s : process) :
  0 < batch_size dl ->
  let r := train_epoch m dl num_epochs opt epoch s in
  stdout (snd r) = stdout s ++ epoch_lines num_epochs (epoch, snd (fst r))
  /\ epoch_ok ((length (examples dl) + batch_size dl - 1) / batch_size dl)
              (snd (fst r))
  /\ forall i d, frozen_at i d (store s) ->
       frozen_at i d (store (snd r)) /\ epoch_frozen i d (snd (fst r)).
Proof.
  intros Hsize. unfold train_epoch, bind, print.
  cbn [fst snd store stdout torch_rng np_rng].
  match goal with
  | |- context [DataLoader_iter dl ?s0] =>
      destruct (DataLoader_iter_spec dl s0 Hsize) as (Hn & Hs & Ho);
      destruct (DataLoader_iter dl s0) as [bs s1]
  end.
  cbn [fst snd store stdout] in Hn, Hs, Ho.
  destruct (train_batches_spec m bs opt s1) as (Hl & Ho' & _ & Hf).
  destruct (train_batches m opt bs s1) as [[opt1 logs] s2].
  cbn [fst snd ret store stdout epoch_batches avg_loss avg_acc] in *.
  unfold epoch_lines, epoch_ok, epoch_frozen.
  cbn [fst snd epoch_batches avg_loss avg_acc].
  split; [|split].
  - rewrite Ho', Ho, <- !app_assoc. reflexivity.
  - repeat split. lia.
  - intros i d H. apply Hf. rewrite Hs. exact H.
Qed.

Lemma train_epochs_spec (m : DeepResnet) (dl : DataLoader) (num_epochs : nat)
    (epochs : list nat) (opt : Adam) (s : process) :
  0 < batch_size dl ->
  let r := train_epochs m dl num_epochs opt epochs s in
  length (snd (fst r)) = length epochs
  /\ stdout (snd r)
     = stdout s ++ flat_map (epoch_lines num_epochs) (zip epochs (snd (fst r)))
  /\ Forall (epoch_ok ((length (examples dl) + batch_size dl - 1) / batch_size dl))
            (snd (fst r))
  /\ forall i d, frozen_at i d (store s) ->
       frozen_at i d (store (snd r))
       /\ Forall (epoch_frozen i d) (snd (fst r)).
Proof.
  intros Hsize. revert opt s.
  induction epochs as [|epoch epochs IH]; intros opt s.
  - cbn. rewrite app_nil_r. repeat split; auto.
  - cbn [train_epochs]. unfold bind.
    destruct (train_epoch_spec m dl num_epochs opt epoch s Hsize)
      as (Ho & Hok & Hf).
    destruct (train_epoch m dl num_epochs opt epoch s) as [[opt1 log] s1].
    cbn [fst snd] in Ho, Hok, Hf |- *.
    destruct (IH opt1 s1) as (Hl & Ho' & Hok' & Hf').
    destruct (train_epochs m dl num_epochs opt1 epochs s1) as [[opt2 logs] s2].
    cbn [fst snd ret length] in *.
    split; [lia|]. split; [|split].
    + rewrite Ho', Ho. cbn [zip_with flat_map]. rewrite <- !app_assoc. reflexivity.
    + constructor; assumption.
    + intros i d H. destruct (Hf i d H) as [H1 H2].
      destruct (Hf' i d H1) as [H3 H4]. split; [exact H3|].
      constructor; assumption.
Qed.

(** *** The script *)

Lemma freeze_frozen (pre ext : list param) (w b : Tensor.mat) :
  let s := foldl (fun s i => alter (set_requires_grad false) i s)
                 (pre ++ Param w true None :: Param b true None :: ext)
                 [length pre; S (length pre)] in
  frozen_at (length pre) w s /\ frozen_at (S (length pre)) b s.
Proof.
  cbn [foldl]. split.
  - exists (Param w false None).
    rewrite list_lookup_alter_ne by lia.
    rewrite list_lookup_alter_eq, list_lookup_middle by reflexivity. auto.
  - exists (Param b false None).
    rewrite list_lookup_alter_eq, list_lookup_alter_ne by lia.
    rewrite (cons_middle _ pre), app_assoc.
    rewrite list_lookup_middle by (rewrite length_app; cbn; lia). auto.
Qed.

(** The model, its first layer frozen, and the training run: what [fit]
    returns and leaves behind. *)
Lemma fit_spec (X : list (Q * Q)) (y : list Q) (s : process) :
  store s = [] ->
  let r := fit X y s in
  let m := fst (fst (fst r)) in
  let s0 := snd (fst (fst r)) in
  let h := snd (snd (fst r)) in
  m = fst (DeepResnet_init 2 6 128 (1 # 100) 1 s)
  /\ length h = 100
  /\ stdout (snd r) = stdout s ++ flat_map (epoch_lines 100) (zip (seq 0 100) h)
  /\ Forall (epoch_ok ((length X + 128 - 1) / 128)) h
  /\ input_layer m = {| weight := 0; bias := 1 |}
  /\ exists w b,
       (frozen_at 0 w s0 /\ frozen_at 1 b s0)
       /\ (Forall (epoch_frozen 0 w) h /\ Forall (epoch_frozen 1 b) h)
       /\ (frozen_at 0 w (store (snd r)) /\ frozen_at 1 b (store (snd r))).
Proof.
  intros Hs. unfold fit, bind.
  destruct (DeepResnet_init_spec 2 6 128 (1 # 100) 1 s)
    as (_ & _ & _ & _ & Hil & (w & b & ext & Hst) & Ho).
  destruct (DeepResnet_init 2 6 128 (1 # 100) 1 s) as [m s1].
  cbn [fst snd] in Hil, Hst, Ho.
  rewrite Hs in Hil, Hst. cbn [length app] in Hil, Hst.
  unfold freeze, bind, get_store, put_store, train.
  cbn [fst snd store stdout torch_rng np_rng].
  rewrite Hil, Hst. unfold Linear_parameters at 1. cbn [weight bias].
  destruct (freeze_frozen [] ext w b) as [Fw Fb].
  cbn [length app] in Fw, Fb.
  set (s0 := foldl _ _ _) in *.
  set (dl := {| examples := X; labels := y; batch_size := 128 |}).
  set (opt := new_Adam _ _).
  set (s2 := Process (np_rng s1) (torch_rng s1) s0 (stdout s1)).
  assert (Hsize : 0 < batch_size dl) by (cbn; lia).
  destruct (train_epochs_spec m dl 100 (seq 0 100) opt s2 Hsize)
    as (Hl & Hout & Hok & Hf).
  destruct (train_epochs m dl 100 opt (seq 0 100) s2) as [[opt' h] s3].
  cbn [fst snd ret] in *.
  rewrite length_seq in Hl.
  split; [reflexivity|]. split; [exact Hl|].
  split; [rewrite Hout; subst s2; cbn [stdout]; rewrite Ho; reflexivity|].
  split; [exact Hok|]. split; [exact Hil|].
  exists w, b. destruct (Hf 0 w Fw) as [H1 H2]. destruct (Hf 1 b Fb) as [H3 H4].
  auto.
Qed.

Lemma test_examples_length : length test_examples = 10000.
Proof. vm_compute. reflexivity. Qed.

Lemma with_np_store {A} (c : St rng A) (s : process) :
  store (snd (with_np c s)) = store s
  /\ stdout (snd (with_np c s)) = stdout s
  /\ fst (with_np c s) = fst (c (np_rng s)).
Proof. unfold with_np. destruct (c (np_rng s)). auto. Qed.

Lemma surfaces_spec (m : DeepResnet) (s : process) :
  store (snd (surfaces m s)) = store s
  /\ stdout (snd (surfaces m s)) = stdout s.
Proof.
  unfold surfaces, call_model, bind, get_store, with_torch.
  destruct (forward m (store s) (map row_of test_examples) (torch_rng s)).
  auto.
Qed.

(** The script after its two seeds, cut at the calls of [fit] and
    [surfaces]. *)
Lemma main_spec (s : process) :
  store s = [] -> stdout s = [] ->
  let res := fst (main s) in
  exists s2 s3,
    (r_train_examples res, r_train_labels res)
    = fst (make_training_data 500 (np_rng s))
    /\ store s2 = [] /\ stdout s2 = shape_lines
    /\ fit (r_train_examples res) (r_train_labels res) s2
       = (r_model res, r_initial_store res, (r_optimizer res, r_history res), s3)
    /\ surfaces (r_model res) s3
       = (r_logits res, r_probs res, r_uncertainty res, snd (main s))
    /\ r_probability_surface res = plot_uncertainty_surface (r_probs res)
    /\ r_uncertainty_surface res = plot_uncertainty_surface (r_uncertainty res).
Proof.
  intros Hs Ho. unfold main, bind.
  destruct (with_np_store (make_training_data 500) s) as (S1 & O1 & R1).
  destruct (with_np (make_training_data 500) s) as [tr s1].
  cbn [fst snd] in S1, O1, R1.
  destruct (make_training_data_spec 500 (np_rng s)) as (L1 & L2 & _).
  rewrite <- R1 in L1, L2. change (2 * 500) with 1000 in L1, L2.
  destruct (with_np_store
    (make_ood_data 500 (5 # 2, - (7 # 4))%Q (1 # 100, 1 # 100)%Q) s1)
    as (S2 & O2 & R2).
  pose proof (repeatM_length 500
    (multivariate_normal (5 # 2, - (7 # 4))%Q (1 # 100, 1 # 100)%Q)
    (np_rng s1)) as L3.
  fold (make_ood_data 500 (5 # 2, - (7 # 4))%Q (1 # 100, 1 # 100)%Q) in L3.
  rewrite <- R2 in L3.
  destruct (with_np (make_ood_data 500 _ _) s1) as [ood s1'].
  cbn [fst snd] in S2, O2, R2, L3.
  unfold print. cbn [fst snd store stdout np_rng torch_rng].
  rewrite L1, L2, L3, test_examples_length.
  match goal with
  | |- context [fit (fst tr) (snd tr) ?s0] => set (s2 := s0)
  end.
  destruct (fit (fst tr) (snd tr) s2) as [[[m s0] [opt h]] s3] eqn:Efit.
  cbn [fst snd].
  destruct (surfaces m s3) as [[[logits probs] unc] s4] eqn:Esf.
  cbn [fst snd ret r_train_examples r_train_labels r_model r_optimizer
       r_initial_store r_history r_logits r_probs r_uncertainty
       r_probability_surface r_uncertainty_surface].
  exists s2, s3. subst s2. cbn [store stdout].
  rewrite S2, S1, Hs, O2, O1, Ho in Efit |- *.
  repeat split; try reflexivity; try assumption.
  rewrite <- R1. destruct tr; reflexivity.
Qed.

Lemma run_unfold (g_np g_torch : rng) :
  run g_np g_torch = main (Process (np_seed 0) (torch_seed 0) [] []).
Proof. reflexivity. Qed.

(** The run, cut at [fit] and [surfaces], with what [fit] guarantees. *)
Lemma run_spec (g_np g_torch : rng) :
  let res := fst (run g_np g_torch) in
  let final := snd (run g_np g_torch) in
  length (r_train_examples res) = 1000
  /\ length (r_history res) = 100
  /\ stdout final
     = shape_lines ++ flat_map (epoch_lines 100) (zip (seq 0 100) (r_history res))
  /\ Forall (epoch_ok 8) (r_history res)
  /\ input_layer (r_model res) = {| weight := 0; bias := 1 |}
  /\ dropout (r_model res) = {| p := 1 # 100; dropout_training := true |}
  /\ training (r_model res) = true
  /\ (exists s3, surfaces (r_model res) s3
                 = (r_logits res, r_probs res, r_uncertainty res, final))
  /\ exists w b,
       (frozen_at 0 w (r_initial_store res) /\ frozen_at 1 b (r_initial_store res))
       /\ (Forall (epoch_frozen 0 w) (r_history res)
           /\ Forall (epoch_frozen 1 b) (r_history res))
       /\ (frozen_at 0 w (store final) /\ frozen_at 1 b (store final)).
Proof.
  rewrite run_unfold. intros res final.
  set (s := Process (np_seed 0) (torch_seed 0) [] []) in *.
  destruct (main_spec s eq_refl eq_refl)
    as (s2 & s3 & Htr & Hs2 & Ho2 & Hfit & Hsf & _).
  fold res final in Htr, Hfit, Hsf.
  pose proof (fit_spec (r_train_examples res) (r_train_labels res) s2 Hs2) as Hf.
  rewrite Hfit in Hf. cbn [fst snd] in Hf.
  destruct Hf as (Hm & Hl & Hout & Hok & Hil & w & b & F0 & Fh & F3).
  destruct (surfaces_spec (r_model res) s3) as [Hst Hso].
  rewrite Hsf in Hst, Hso. cbn [snd] in Hst, Hso.
  destruct (make_training_data_spec 500 (np_rng s)) as (L1 & _).
  rewrite <- Htr in L1. cbn [fst] in L1. change (2 * 500) with 1000 in L1.
  destruct (DeepResnet_init_spec 2 6 128 (1 # 100) 1 s2)
    as (_ & _ & Hd & Ht & _).
  rewrite <- Hm in Hd, Ht.
  split; [exact L1|]. split; [exact Hl|].
  split; [rewrite Hso, Hout, Ho2; reflexivity|].
  split; [rewrite L1 in Hok; exact Hok|].
  split; [exact Hil|]. split; [exact Hd|]. split; [exact Ht|].
  split; [exists s3; exact Hsf|].
  exists w, b. rewrite Hst. auto.
Qed.

(** C1.  In every run there are values [w] and [b] such that the weight
    and the bias of [input_layer] hold them in the store the training
    starts from, in the store after every optimizer step of every one of
    the 100 epochs, and in the store the run ends with. *)
Theorem input_layer_never_changes (g_np g_torch : rng) :
  let res := fst (run g_np g_torch) in
  let final := snd (run g_np g_torch) in
  let l := input_layer (r_model res) in
  exists w b,
    layer_values l w b (r_initial_store res)
    /\ length (r_history res) = 100
    /\ Forall (fun ep =>
                 Forall (fun step => layer_values l w b (batch_store step))
                        (epoch_batches ep))
              (r_history res)
    /\ layer_values l w b (store final).
Proof.
  intros res final l.
  destruct (run_spec g_np g_torch)
    as (_ & Hl & _ & _ & Hil & _ & _ & _ & w & b & [F0 F1] & [H0 H1] & [E0 E1]).
  fold res final in Hl, Hil, F0, F1, H0, H1, E0, E1.
  subst l. rewrite Hil. unfold layer_values. cbn [weight bias].
  exists w, b. split; [split; apply frozen_holds; assumption|].
  split; [exact Hl|]. split; [|split; apply frozen_holds; assumption].
  rewrite List.Forall_forall in *. intros ep Hep.
  specialize (H0 ep Hep). specialize (H1 ep Hep).
  unfold epoch_frozen in H0, H1. rewrite List.Forall_forall in *.
  intros step Hstep. split; apply frozen_holds; auto.
Qed.

(** C3 (the part the script does not do).  In every run the model that
    computes the plotted surfaces at line 209 is the model of the training
    loop with both training flags still set: its dropout layer samples a
    mask with rate 0.01 on the evaluation grid as it does on a
    minibatch. *)
Theorem surfaces_computed_in_training_mode (g_np g_torch : rng) :
  let res := fst (run g_np g_torch) in
  let m := r_model res in
  training m = true
  /\ dropout_training (dropout m) = true
  /\ (forall x, Dropout_forward (dropout m) x = F_dropout (1 # 100) true x)
  /\ exists s, surfaces m s
               = (r_logits res, r_probs res, r_uncertainty res,
                  snd (run g_np g_torch)).
Proof.
  intros res m.
  destruct (run_spec g_np g_torch)
    as (_ & _ & _ & _ & _ & Hd & Ht & Hs & _).
  fold res in Hd, Ht, Hs. fold m in Hd, Ht, Hs.
  split; [exact Ht|]. split; [rewrite Hd; reflexivity|].
  split; [|exact Hs].
  intros x. unfold Dropout_forward. rewrite Hd. reflexivity.
Qed.

(** C8.  The result of a run and the state it ends in do not depend on
    the states the two generators had when the process started: the
    script first sets NumPy's generator and torch's generator from the
    seed 0, and everything after that is a function of those two states. *)
Theorem run_deterministic (g_np g_torch g_np' g_torch' : rng) :
  run g_np g_torch = run g_np' g_torch'
  /\ run g_np g_torch = main (Process (np_seed 0) (torch_seed 0) [] []).
Proof. split; [rewrite !run_unfold|rewrite run_unfold]; reflexivity. Qed.

(** C9.  Every run performs exactly 100 epochs, whatever the losses are:
    the history has 100 entries, each epoch ran its 8 minibatches and
    reports the averages of their losses and of their accuracies, and the
    output is the four shapes followed, for the epochs 1 to 100 in order,
    by the epoch header, the average loss and the average accuracy. *)
Theorem training_runs_every_epoch (g_np g_torch : rng) :
  let res := fst (run g_np g_torch) in
  let final := snd (run g_np g_torch) in
  length (r_history res) = 100
  /\ Forall (epoch_ok 8) (r_history res)
  /\ stdout final
     = shape_lines
       ++ flat_map (epoch_lines 100) (zip (seq 0 100) (r_history res)).
Proof.
  intros res final.
  destruct (run_spec g_np g_torch) as (_ & Hl & Ho & Hok & _).
  auto.
Qed.


(** * Further properties of the script *)

(** ** The forward pass *)

Lemma foldM_eval (m : DeepResnet) (s : list param) (ls : list Linear)
    (hidden : Tensor.mat) (g : rng) :
  dropout_training (dropout m) = false ->
  foldM (resid_step m s) hidden ls g
  = (foldl (fun h resid => Tensor.madd h (relu (Linear_forward s resid h)))
           hidden ls, g).
Proof.
  intros Hm. revert hidden. induction ls as [|resid ls IH]; intros hidden.
  - reflexivity.
  - cbn [foldM foldl]. unfold bind, resid_step at 1, Dropout_forward, bind.
    rewrite Hm. cbn [F_dropout ret]. apply IH.
Qed.

(** X1.  With the dropout layer in evaluation mode the forward pass draws
    nothing: it returns the generator as it received it, and its output
    does not depend on the generator. *)
Theorem forward_eval_mode (m : DeepResnet) (s : list param)
    (inputs : Tensor.mat) :
  dropout_training (dropout m) = false ->
  exists out, forall g, forward m s inputs g = (out, g).
Proof.
  intros Hm. eexists. intros g. unfold forward, bind.
  rewrite foldM_eval by assumption. reflexivity.
Qed.





Lemma repeatM_Forall {S A} (P : A -> Prop) (n : nat) (c : St S A) (s : S) :
  (forall s', P (fst (c s'))) -> Forall P (fst (repeatM n c s)).
Proof.
  intros Hc. revert s. induction n as [|n IH]; intros s; [constructor|].
  cbn [repeatM]. unfold bind. specialize (Hc s). destruct (c s) as [a s1].
  specialize (IH s1). destruct (repeatM n c s1) as [rest s2].
  cbn in *. constructor; assumption.
Qed.

(** The two parameters of a new layer and their shapes. *)
Lemma new_Linear_cells (n_in n_out : nat) (s : process) :
  exists w b,
    store (snd (new_Linear n_in n_out s))
    = store s ++ [Param w true None; Param [b] true None]
    /\ fst (new_Linear n_in n_out s)
       = {| weight := length (store s); bias := S (length (store s)) |}
    /\ length w = n_out
    /\ Forall (fun row => length row = n_in) w
    /\ length b = n_out.
Proof.
  unfold new_Linear, bind.
  destruct (with_torch_store
    (repeatM n_out (repeatM n_in (uniform_fan_in n_in))) s) as (E1 & _ & _).
  assert (Hw : forall g,
    length (fst (repeatM n_out (repeatM n_in (uniform_fan_in n_in)) g)) = n_out
    /\ Forall (fun row => length row = n_in)
              (fst (repeatM n_out (repeatM n_in (uniform_fan_in n_in)) g))).
  { intros g. split; [apply repeatM_length|].
    apply repeatM_Forall. intros g'. apply repeatM_length. }
  unfold with_torch in *.
  specialize (Hw (torch_rng s)).
  destruct (repeatM n_out (repeatM n_in (uniform_fan_in n_in)) (torch_rng s))
    as [w g1].
  cbn [fst snd store torch_rng np_rng stdout] in *.
  pose proof (repeatM_length n_out (uniform_fan_in n_in) g1) as Hb.
  destruct (repeatM n_out (uniform_fan_in n_in) g1) as [b g2].
  unfold new_param, ret. cbn [fst snd store torch_rng np_rng stdout] in *.
  exists w, b. rewrite <- app_assoc, length_app. cbn [length app].
  destruct Hw as [Hw1 Hw2]. repeat split; try assumption.
  f_equal. f_equal. lia.
Qed.




(** ** The constructor and the frozen layer *)

(** A cell as [new_param] creates it. *)
Definition fresh (c : param) : Prop := requires_grad c = true /\ grad c = None.

Lemma repeatM_new_Linear_refs (k n_in n_out : nat) (s : process) :
  flat_map Linear_parameters (fst (repeatM k (new_Linear n_in n_out) s))
  = seq (length (store s)) (2 * k)
  /\ exists ext,
       store (snd (repeatM k (new_Linear n_in n_out) s)) = store s ++ ext
       /\ length ext = 2 * k /\ Forall fresh ext.
Proof.
  revert s. induction k as [|k IH]; intros s.
  - cbn. split; [reflexivity|]. exists []. rewrite app_nil_r.
    repeat split. constructor.
  - cbn [repeatM]. unfold bind.
    destruct (new_Linear_cells n_in n_out s) as (w & b & E & R & _).
    destruct (new_Linear n_in n_out s) as [l s1]. cbn [fst snd] in E, R.
    destruct (IH s1) as (Hrefs & ext & E' & Hlen & Hfresh).
    destruct (repeatM k (new_Linear n_in n_out) s1) as [ls s2].
    cbn [fst snd ret flat_map] in *. split.
    + rewrite Hrefs, R, E, length_app. unfold Linear_parameters.
      cbn [weight bias length app].
      replace (2 * S k) with (S (S (2 * k))) by lia. cbn [seq].
      do 3 f_equal. lia.
    + exists ([Param w true None; Param [b] true None] ++ ext).
      rewrite E', E, <- app_assoc. split; [reflexivity|].
      split; [rewrite length_app; cbn [length]; lia|].
      apply Forall_app. split; [|exact Hfresh].
      repeat constructor.
Qed.

(** X3.  The constructor appends [2 * num_layers + 4] parameters to the
    store, each tracked and without gradient, and [parameters] lists
    exactly their references, in the order of registration: input layer,
    residual blocks, classifier, each as weight then bias. *)
Theorem DeepResnet_init_parameters (n_in n_layers n_hidden : nat) (rate : Q)
    (n_out : nat) (s : process) :
  let m := fst (DeepResnet_init n_in n_layers n_hidden rate n_out s) in
  let s' := snd (DeepResnet_init n_in n_layers n_hidden rate n_out s) in
  parameters m = seq (length (store s)) (2 * n_layers + 4)
  /\ exists ext,
       store s' = store s ++ ext
       /\ length ext = 2 * n_layers + 4 /\ Forall fresh ext.
Proof.
  unfold DeepResnet_init, bind.
  destruct (new_Linear_cells n_in n_hidden s) as (w & b & E1 & R1 & _).
  destruct (new_Linear n_in n_hidden s) as [il s1]. cbn [fst snd] in E1, R1.
  destruct (repeatM_new_Linear_refs n_layers n_hidden n_hidden s1)
    as (Hrefs & ext & E2 & Hlen & Hfresh).
  destruct (repeatM n_layers (new_Linear n_hidden n_hidden) s1) as [ls s2].
  cbn [fst snd] in Hrefs, E2.
  destruct (new_Linear_cells n_hidden n_out s2) as (w' & b' & E3 & R3 & _).
  destruct (new_Linear n_hidden n_out s2) as [cl s3]. cbn [fst snd] in E3, R3.
  cbn [fst snd ret]. unfold parameters.
  cbn [input_layer linears classifier]. split.
  - rewrite Hrefs, R1, R3, E2, E1, !length_app, Hlen. unfold Linear_parameters.
    cbn [weight bias length app].
    replace (2 * n_layers + 4) with (2 + (2 * n_layers + 2)) by lia.
    rewrite seq_app. cbn [seq app]. do 2 f_equal.
    rewrite seq_app. cbn [seq]. reflexivity.
  - exists ([Param w true None; Param [b] true None] ++ ext
            ++ [Param w' true None; Param [b'] true None]).
    rewrite E3, E2, E1, <- !app_assoc. split; [reflexivity|].
    split; [rewrite !length_app; cbn [length]; lia|].
    apply Forall_app. split; [repeat constructor|].
    apply Forall_app. split; [exact Hfresh | repeat constructor].
Qed.

Lemma alter_untrack_lookup (s : list param) (j i : nat) :
  alter (set_requires_grad false) j s !! i
  = (if decide (i = j) then set_requires_grad false else id) <$> s !! i.
Proof.
  destruct (decide (i = j)) as [-> | Hne].
  - apply list_lookup_alter_eq.
  - rewrite list_lookup_alter_ne by congruence.
    destruct (s !! i); reflexivity.
Qed.

(** X4.  Freezing a layer changes nothing but the [requires_grad] flag of
    its weight and of its bias: every other parameter, and the values and
    the gradient of these two, stay as they are, and so do the generators
    and the output. *)
Theorem freeze_only_untracks (l : Linear) (s : process) (i : nat) :
  let s' := snd (freeze l s) in
  store s' !! i
  = (if decide (i = weight l \/ i = bias l) then set_requires_grad false else id)
      <$> store s !! i
  /\ length (store s') = length (store s)
  /\ np_rng s' = np_rng s /\ torch_rng s' = torch_rng s /\ stdout s' = stdout s.
Proof.
  unfold freeze, bind, get_store, put_store, Linear_parameters.
  cbn [fst snd store np_rng torch_rng stdout foldl].
  split; [|rewrite !length_alter; auto].
  rewrite !alter_untrack_lookup.
  destruct (decide (i = weight l)) as [Hw | Hw];
    destruct (decide (i = bias l)) as [Hb | Hb];
    destruct (decide (i = weight l \/ i = bias l)) as [H | H];
    try tauto; destruct (store s !! i) as [[d r g]|]; reflexivity.
Qed.


(** ** One optimizer step *)

Lemma fmap_alter_same {A B} (f : A -> B) (h : A -> A) (i : nat) (s : list A) :
  (forall c, f (h c) = f c) -> f <$> alter h i s = f <$> s.
Proof.
  intros H. apply list_eq. intros j. rewrite !list_lookup_fmap.
  destruct (decide (j = i)) as [-> | Hne].
  - rewrite list_lookup_alter_eq. destruct (s !! i); cbn; [rewrite H|]; reflexivity.
  - rewrite list_lookup_alter_ne by congruence. reflexivity.
Qed.

Lemma fmap_foldl_alter_same {A B} (f : A -> B) (h : A -> A) (js : list nat)
    (s : list A) :
  (forall c, f (h c) = f c) ->
  f <$> foldl (fun s j => alter h j s) s js = f <$> s.
Proof.
  intros H. revert s. induction js as [|j js IH]; intros s; [reflexivity|].
  cbn [foldl]. rewrite IH. apply fmap_alter_same, H.
Qed.

Lemma fmap_imap_same {A B} (f : A -> B) (F : nat -> A -> A) (s : list A) :
  (forall j c, f (F j c) = f c) -> f <$> imap F s = f <$> s.
Proof.
  intros H. apply list_eq. intros j.
  rewrite !list_lookup_fmap, list_lookup_imap.
  destruct (s !! j); cbn; [rewrite H|]; reflexivity.
Qed.

Lemma adam_step_param_same {B} (f : param -> B) (rate : Q)
    (acc : gmap nat adam_state * list param) (j : nat) :
  (forall d c, f (set_data d c) = f c) ->
  f <$> snd (adam_step_param rate acc j) = f <$> snd acc.
Proof.
  intros H. destruct acc as [st s]. unfold adam_step_param. cbn [snd].
  destruct (s !! j) as [cj|] eqn:Hj; [|reflexivity].
  destruct (grad cj) as [g|]; [|reflexivity].
  destruct (adam_rule rate _ (data cj) g) as [a' d']. cbn [snd].
  rewrite list_fmap_insert, H. apply list_insert_id.
  rewrite list_lookup_fmap, Hj. reflexivity.
Qed.

Lemma Adam_fold_same {B} (f : param -> B) (rate : Q) (js : list nat)
    (acc : gmap nat adam_state * list param) :
  (forall d c, f (set_data d c) = f c) ->
  f <$> snd (foldl (adam_step_param rate) acc js) = f <$> snd acc.
Proof.
  intros H. revert acc. induction js as [|j js IH]; intros acc; [reflexivity|].
  cbn [foldl]. rewrite IH. apply adam_step_param_same, H.
Qed.

Lemma adam_step_param_other (rate : Q)
    (acc : gmap nat adam_state * list param) (j i : nat) :
  i <> j -> snd (adam_step_param rate acc j) !! i = snd acc !! i.
Proof.
  intros Hne. destruct acc as [st s]. unfold adam_step_param. cbn [snd].
  destruct (s !! j) as [cj|]; [|reflexivity].
  destruct (grad cj) as [g|]; [|reflexivity].
  destruct (adam_rule rate _ (data cj) g) as [a' d']. cbn [snd].
  apply list_lookup_insert_ne. congruence.
Qed.

Lemma Adam_fold_other (rate : Q) (js : list nat)
    (acc : gmap nat adam_state * list param) (i : nat) :
  i ∉ js -> snd (foldl (adam_step_param rate) acc js) !! i = snd acc !! i.
Proof.
  revert acc. induction js as [|j js IH]; intros acc Hi; [reflexivity|].
  cbn [foldl]. apply not_elem_of_cons in Hi as [Hne Hi].
  rewrite IH by assumption. apply adam_step_param_other, Hne.
Qed.

(** [optimizer.step()] writes only into the parameters the optimizer
    was given: a parameter outside its list is left exactly as it is, and
    of no parameter does the step change the gradient or the
    [requires_grad] flag. *)
Theorem Adam_step_only_its_params (opt : Adam) (s : process) (i : nat) :
  i ∉ params opt ->
  let s' := snd (Adam_step opt s) in
  store s' !! i = store s !! i
  /\ map grad (store s') = map grad (store s)
  /\ map requires_grad (store s') = map requires_grad (store s).
Proof.
  intros Hi. unfold Adam_step, bind, get_store, put_store.
  cbn [fst snd store].
  pose proof (Adam_fold_other (lr opt) (params opt) (state opt, store s) i Hi) as H1.
  pose proof (Adam_fold_same grad (lr opt) (params opt) (state opt, store s)
                (fun _ _ => eq_refl)) as H2.
  pose proof (Adam_fold_same requires_grad (lr opt) (params opt)
                (state opt, store s) (fun _ _ => eq_refl)) as H3.
  destruct (foldl (adam_step_param (lr opt)) (state opt, store s) (params opt))
    as [st s1].
  cbn [fst snd ret store] in *. auto.
Qed.

(** The store that one minibatch leaves, as a function of the store it
    starts from. *)
Lemma train_batch_store (m : DeepResnet) (opt : Adam)
    (samples : Tensor.mat * list Q) (s : process) :
  let zeroed := foldl (fun s j => alter (set_grad None) j s) (store s) (params opt) in
  let graded :=
    imap (fun i c =>
            if requires_grad c
            then set_grad (accumulate (grad c)
                             (autograd m (map data zeroed) (torch_rng s)
                                       (fst samples) (snd samples) i)) c
            else c) zeroed in
  store (snd (train_batch m opt samples s))
  = snd (foldl (adam_step_param (lr opt)) (state opt, graded) (params opt)).
Proof.
  destruct samples as [x y].
  unfold train_batch, call_model, zero_grad, backward, Adam_step, bind,
    get_store, put_store, with_torch, ret.
  cbn [fst snd store stdout torch_rng np_rng].
  destruct (forward m (store s) x (torch_rng s)) as [logits g'].
  cbn [fst snd store stdout torch_rng np_rng].
  match goal with
  | |- context [foldl (adam_step_param ?r) ?a ?js] =>
      destruct (foldl (adam_step_param r) a js) as [st s'] eqn:E
  end.
  reflexivity.
Qed.




(** ** The loop as a whole *)

Lemma train_batch_tracking (m : DeepResnet) (opt : Adam)
    (samples : Tensor.mat * list Q) (s : process) :
  map requires_grad (store (snd (train_batch m opt samples s)))
  = map requires_grad (store s).
Proof.
  rewrite train_batch_store. cbv zeta.
  rewrite (Adam_fold_same requires_grad) by reflexivity. cbn [snd].
  rewrite (fmap_imap_same requires_grad).
  - apply fmap_foldl_alter_same. reflexivity.
  - intros j c. destruct (requires_grad c) eqn:E; [|exact E]. exact E.
Qed.

Lemma train_batches_tracking (m : DeepResnet) (bs : list (Tensor.mat * list Q))
    (opt : Adam) (s : process) :
  map requires_grad (store (snd (train_batches m opt bs s)))
  = map requires_grad (store s).
Proof.
  revert opt s. induction bs as [|samples bs IH]; intros opt s; [reflexivity|].
  cbn [train_batches]. unfold bind.
  pose proof (train_batch_tracking m opt samples s) as H.
  destruct (train_batch m opt samples s) as [[opt1 log] s1]. cbn [fst snd] in *.
  specialize (IH opt1 s1).
  destruct (train_batches m opt1 bs s1) as [[opt2 logs] s2].
  cbn [fst snd ret] in *. congruence.
Qed.

Lemma DataLoader_iter_store (dl : DataLoader) (s : process) :
  store (snd (DataLoader_iter dl s)) = store s.
Proof.
  unfold DataLoader_iter, bind, with_torch.
  destruct (next (torch_rng s)) as [base_seed g0].
  cbn [fst snd store torch_rng].
  destruct (RandomSampler (length (examples dl)) g0) as [indices g'].
  reflexivity.
Qed.

Lemma train_epochs_tracking (m : DeepResnet) (dl : DataLoader) (num_epochs : nat)
    (epochs : list nat) (opt : Adam) (s : process) :
  map requires_grad (store (snd (train_epochs m dl num_epochs opt epochs s)))
  = map requires_grad (store s).
Proof.
  revert opt s. induction epochs as [|epoch epochs IH]; intros opt s; [reflexivity|].
  cbn [train_epochs]. unfold bind at 1.
  assert (He : map requires_grad
                 (store (snd (train_epoch m dl num_epochs opt epoch s)))
               = map requires_grad (store s)).
  { unfold train_epoch, bind, print. cbn [fst snd store stdout torch_rng np_rng].
    match goal with
    | |- context [DataLoader_iter dl ?s0] =>
        pose proof (DataLoader_iter_store dl s0) as Hs;
        destruct (DataLoader_iter dl s0) as [bs s1]
    end.
    cbn [fst snd store] in Hs.
    pose proof (train_batches_tracking m bs opt s1) as Hb.
    destruct (train_batches m opt bs s1) as [[opt1 logs] s2].
    cbn [fst snd ret store] in *. congruence. }
  destruct (train_epoch m dl num_epochs opt epoch s) as [[opt1 log] s1].
  cbn [fst snd] in *. specialize (IH opt1 s1). unfold bind.
  destruct (train_epochs m dl num_epochs opt1 epochs s1) as [[opt2 logs] s2].
  cbn [fst snd ret] in *. congruence.
Qed.

(** X5.  Training never changes which parameters are tracked by autograd,
    nor how many there are: after any number of epochs over any data set
    the [requires_grad] flags of the store are the ones it started with. *)
Theorem train_keeps_tracking (m : DeepResnet) (dl : DataLoader)
    (num_epochs : nat) (opt : Adam) (s : process) :
  map requires_grad (store (snd (train m dl num_epochs opt s)))
  = map requires_grad (store s)
  /\ length (store (snd (train m dl num_epochs opt s))) = length (store s).
Proof.
  pose proof (train_epochs_tracking m dl num_epochs (seq 0 num_epochs) opt s) as H.
  fold (train m dl num_epochs opt) in H. split; [exact H|].
  apply (f_equal length) in H. rewrite !length_map in H. exact H.
Qed.

(** *** The minibatches of an epoch *)

Lemma randperm_from_Permutation (k i : nat) (r : list nat) (g : rng) :
  fst (randperm_from k i r g) ≡ₚ r.
Proof.
  revert i r g. induction k as [|k IH]; intros i r g; [reflexivity|].
  cbn [randperm_from]. unfold bind, randint.
  destruct (next g) as [u g']. rewrite IH. apply swap_Permutation.
Qed.

Lemma RandomSampler_Permutation (n : nat) (g : rng) :
  fst (RandomSampler n g) ≡ₚ seq 0 n.
Proof.
  unfold RandomSampler, bind. destruct (next g) as [seed g'].
  cbn [fst ret]. apply randperm_from_Permutation.
Qed.

Lemma batches_fuel_concat (fuel size : nat) (l : list nat) :
  0 < size -> length l <= fuel ->
  concat (batches_fuel fuel size l) = l
  /\ Forall (fun b => 0 < length b <= size) (batches_fuel fuel size l).
Proof.
  intros Hsize. revert l. induction fuel as [|fuel IH]; intros l Hl.
  - destruct l; [|cbn in Hl; lia]. split; [reflexivity | constructor].
  - destruct l as [|a l]; [split; [reflexivity | constructor]|].
    cbn [batches_fuel].
    destruct (IH (drop size (a :: l))) as [H1 H2].
    { rewrite length_drop. cbn [length] in *. lia. }
    split.
    + cbn [concat]. rewrite H1. apply take_drop.
    + constructor; [|exact H2]. rewrite length_take. cbn [length]. lia.
Qed.

Lemma zip_fmap_same {A B C} (f : A -> B) (h : A -> C) (l : list A) :
  zip (map f l) (map h l) = map (fun a => (f a, h a)) l.
Proof. induction l as [|a l IH]; [reflexivity|]. cbn. f_equal. exact IH. Qed.

Lemma concat_fmap_fmap {A B} (f : A -> B) (ls : list (list A)) :
  concat (map (map f) ls) = map f (concat ls).
Proof.
  induction ls as [|l ls IH]; [reflexivity|].
  cbn. rewrite map_app, IH. reflexivity.
Qed.

(** X7.  One pass over the loader visits every training example exactly
    once, with its own label: the minibatches, put end to end, are a
    permutation of the data set; and every minibatch has between 1 and
    [batch_size] examples and as many labels. *)
Theorem DataLoader_epoch_partition (dl : DataLoader) (s : process) :
  0 < batch_size dl -> length (labels dl) = length (examples dl) ->
  let bs := fst (DataLoader_iter dl s) in
  concat (map (fun b => zip (fst b) (snd b)) bs)
  ≡ₚ zip (map row_of (examples dl)) (labels dl)
  /\ Forall (fun b => 0 < length (fst b) <= batch_size dl
                      /\ length (snd b) = length (fst b)) bs.
Proof.
  intros Hsize Hlen. unfold DataLoader_iter, bind, with_torch.
  destruct (next (torch_rng s)) as [base_seed g0].
  cbn [fst snd store stdout torch_rng np_rng].
  pose proof (RandomSampler_Permutation (length (examples dl)) g0) as Hp.
  destruct (RandomSampler (length (examples dl)) g0) as [indices g'].
  cbn [fst snd ret] in *.
  destruct (batches_fuel_concat (length indices) (batch_size dl) indices Hsize)
    as [Hc Hb]; [lia|].
  fold (BatchSampler (batch_size dl) indices) in Hc, Hb.
  split.
  - rewrite map_map. cbn [fst snd].
    erewrite map_ext by (intros b; apply zip_fmap_same).
    rewrite concat_fmap_fmap, Hc, Hp.
    rewrite <- zip_fmap_same, <- (map_map (fun i => examples dl !!! i) row_of).
    rewrite lookup_total_seq_map.
    rewrite <- Hlen, lookup_total_seq_map. reflexivity.
  - apply Forall_fmap. eapply Forall_impl; [exact Hb|].
    intros b Hb'. cbn. rewrite !length_map. split; [exact Hb' | reflexivity].
Qed.


(** ** The data *)


(** X11.  [make_ood_data] returns exactly [sample_size] points, for every
    mean, variance and generator state. *)
Theorem make_ood_data_size (sample_size : nat) (means vars : Q * Q) (g : rng) :
  length (fst (make_ood_data sample_size means vars g)) = sample_size.
Proof. apply repeatM_length. Qed.





End Script.

(** * Properties of the grid, the uncertainty score and the surfaces *)

(** ** The uncertainty score *)

Lemma Qsquare_nonneg (x : Q) : (0 <= x * x)%Q.
Proof.
  destruct (Qlt_le_dec x 0) as [H | H].
  - assert (E : (x * x == (- x) * (- x))%Q) by ring.
    rewrite E. apply Qmult_le_0_compat; lra.
  - apply Qmult_le_0_compat; lra.
Qed.

Lemma uncertainty_le_quarter (p : Q) : (uncertainty p <= uncertainty (1 # 2))%Q.
Proof. unfold uncertainty. pose proof (Qsquare_nonneg (p - (1 # 2))). lra. Qed.

Lemma uncertainty_max_unique (p : Q) :
  (uncertainty p == uncertainty (1 # 2) -> p == 1 # 2)%Q.
Proof.
  unfold uncertainty. intros H.
  assert (E : ((p - (1 # 2)) * (p - (1 # 2)) == 0)%Q) by lra.
  apply Qmult_integral in E. destruct E; lra.
Qed.

Lemma uncertainty_zero_iff (p : Q) :
  (uncertainty p == 0 <-> p == 0 \/ p == 1)%Q.
Proof.
  unfold uncertainty. split.
  - intros H. apply Qmult_integral in H. destruct H; [left | right]; lra.
  - intros [H | H]; rewrite H; ring.
Qed.

Lemma resnet_uncertainty_map (probs : list Q) :
  resnet_uncertainty probs = map uncertainty probs.
Proof.
  unfold resnet_uncertainty.
  induction probs as [|q probs IH]; simpl; [reflexivity|].
  f_equal. exact IH.
Qed.

(** C7.  Line 223 computes [p * (1 - p)] for every entry [p] of
    [resnet_probs]; and for every [p] in [0, 1] (indeed for every rational
    [p]) that score is at most its value 1/4 at [p = 1/2], reaches it only
    there, and is 0 exactly when [p] is 0 or 1. *)
Theorem uncertainty_extrema (resnet_probs : list Q) :
  resnet_uncertainty resnet_probs = map uncertainty resnet_probs
  /\ (uncertainty (1 # 2) == 1 # 4)%Q
  /\ (forall p : Q,
        (0 <= p <= 1)%Q ->
        (uncertainty p <= uncertainty (1 # 2))%Q
        /\ ((uncertainty p == uncertainty (1 # 2))%Q -> (p == 1 # 2)%Q)
        /\ ((uncertainty p == 0)%Q <-> (p == 0)%Q \/ (p == 1)%Q)).
Proof.
  split; [apply resnet_uncertainty_map|]. split; [reflexivity|].
  intros p _. split; [apply uncertainty_le_quarter|].
  split; [apply uncertainty_max_unique | apply uncertainty_zero_iff].
Qed.

Lemma uncertainty_extrema_witness :
  (uncertainty (1 # 4) <= uncertainty (1 # 2))%Q
  /\ ((uncertainty 1 == 0)%Q <-> (1 == 0)%Q \/ (1 == 1)%Q).
Proof.
  destruct (uncertainty_extrema [1 # 4; 1]%Q) as (_ & _ & H).
  split.
  - apply (H (1 # 4)%Q). split; discriminate.
  - apply (H 1%Q). split; discriminate.
Defined.

(** ** The normalisation of a surface *)

Lemma Qmax_cases (x y : Q) : Qmax x y = x \/ Qmax x y = y.
Proof. unfold Qmax, GenericMinMax.gmax. destruct (x ?= y)%Q; auto. Qed.

Lemma fold_Qmax_in (xs : list Q) (x : Q) :
  fold_left Qmax xs x = x \/ In (fold_left Qmax xs x) xs.
Proof.
  revert x. induction xs as [|y xs IH]; intros x; simpl; [auto|].
  destruct (IH (Qmax x y)) as [E | E].
  - rewrite E. destruct (Qmax_cases x y) as [-> | ->]; auto.
  - auto.
Qed.

Lemma fold_Qmax_ge (xs : list Q) (x : Q) :
  (x <= fold_left Qmax xs x)%Q /\ Forall (fun y => (y <= fold_left Qmax xs x)%Q) xs.
Proof.
  revert x. induction xs as [|y xs IH]; intros x; simpl.
  - split; [lra | constructor].
  - destruct (IH (Qmax x y)) as [H1 H2].
    pose proof (Q.le_max_l x y). pose proof (Q.le_max_r x y).
    split; [lra|]. constructor; [lra | exact H2].
Qed.

Lemma torch_max_in (scores : list Q) (m : Q) :
  torch_max scores = Some m -> In m scores.
Proof.
  destruct scores as [|x xs]; simpl; [discriminate|].
  intros [= <-]. destruct (fold_Qmax_in xs x) as [-> | H]; auto.
Qed.

Lemma torch_max_ge (scores : list Q) (m : Q) :
  torch_max scores = Some m -> Forall (fun y => (y <= m)%Q) scores.
Proof.
  destruct scores as [|x xs]; simpl; [discriminate|].
  intros [= <-]. destruct (fold_Qmax_ge xs x). constructor; assumption.
Qed.

Lemma torch_max_is_Some (scores : list Q) :
  scores <> [] -> exists m, torch_max scores = Some m.
Proof. destruct scores; [congruence | simpl; eauto]. Qed.

Lemma fdiv_nonzero (x m : Q) : ~ (m == 0)%Q -> fdiv x m = Finite (x / m).
Proof.
  intros H. unfold fdiv. destruct (Qeq_bool m 0) eqn:E; [|reflexivity].
  apply Qeq_bool_eq in E. contradiction.
Qed.

Lemma fdiv_zero (x m : Q) : (m == 0)%Q -> is_finite (fdiv x m) = false.
Proof.
  intros H. unfold fdiv. apply Qeq_eq_bool in H. rewrite H.
  destruct (x ?= 0)%Q; reflexivity.
Qed.

Lemma fdiv_zero_zero (x m : Q) : (m == 0)%Q -> (x == 0)%Q -> fdiv x m = NaN.
Proof.
  intros H Hx. unfold fdiv. apply Qeq_eq_bool in H. rewrite H.
  apply Qeq_alt in Hx. rewrite Hx. reflexivity.
Qed.

Lemma Qdiv_unit (x m : Q) : (0 < m -> 0 <= x -> x <= m -> 0 <= x / m <= 1)%Q.
Proof.
  intros Hm H0 H1. split.
  - apply Qle_shift_div_l; [assumption | lra].
  - apply Qle_shift_div_r; [assumption | lra].
Qed.

Lemma Qdiv_neg_ge_1 (x m : Q) : (m < 0 -> x <= m -> 1 <= x / m)%Q.
Proof.
  intros Hm Hx.
  assert (E : (x / m == (- x) / (- m))%Q) by (field; lra).
  rewrite E. apply Qle_shift_div_l; lra.
Qed.

Lemma concat_rows_of {A} (n r : nat) (a : list A) :
  concat (rows_of n r a) = take (n * r) a.
Proof.
  revert a. induction r as [|r IH]; intros a; simpl.
  - rewrite Nat.mul_0_r. reflexivity.
  - rewrite IH. replace (n * S r) with (n + n * r) by lia.
    rewrite take_take_drop. reflexivity.
Qed.

Lemma reshape_grid_concat {A} (n : nat) (a : list A) :
  length a = n * n ->
  reshape_grid n a = Some (rows_of n n a) /\ concat (rows_of n n a) = a.
Proof.
  intros H. unfold reshape_grid. apply Nat.eqb_eq in H as H'. rewrite H'.
  split; [reflexivity|]. rewrite concat_rows_of. apply take_ge. lia.
Qed.

(** C6, as it is stated, fails: on a score array of the size of the grid
    with a negative entry the plotted array has an entry below 0, and on
    the array of zeros every plotted entry is not-a-number. *)
Lemma surface_not_normalized :
  (exists grid, plot_uncertainty_surface negative_scores = Some grid
                /\ ~ normalized (concat grid))
  /\ (exists grid, plot_uncertainty_surface zero_scores = Some grid
                   /\ ~ normalized (concat grid)).
Proof.
  split.
  - assert (Hm : torch_max negative_scores = Some 1%Q) by (vm_compute; reflexivity).
    assert (Hn : normalize_uncertainty negative_scores
                 = Some (map (fun x => fdiv x 1) negative_scores)).
    { unfold normalize_uncertainty. rewrite Hm. reflexivity. }
    destruct (reshape_grid_concat DEFAULT_N_GRID
                (map (fun x => fdiv x 1) negative_scores)) as [E1 E2].
    { vm_compute. reflexivity. }
    eexists. split.
    + unfold plot_uncertainty_surface. rewrite Hn. simpl. exact E1.
    + rewrite E2. intros [_ H]. unfold negative_scores in H.
      rewrite map_cons in H. apply Forall_inv in H.
      vm_compute in H. destruct H as [H _]. apply H. reflexivity.
  - assert (Hm : torch_max zero_scores = Some 0%Q) by (vm_compute; reflexivity).
    assert (Hn : normalize_uncertainty zero_scores
                 = Some (map (fun x => fdiv x 0) zero_scores)).
    { unfold normalize_uncertainty. rewrite Hm. reflexivity. }
    destruct (reshape_grid_concat DEFAULT_N_GRID
                (map (fun x => fdiv x 0) zero_scores)) as [E1 E2].
    { vm_compute. reflexivity. }
    eexists. split.
    + unfold plot_uncertainty_surface. rewrite Hn. simpl. exact E1.
    + rewrite E2. intros [_ H]. unfold zero_scores in H.
      change 10000 with (S 9999) in H. rewrite replicate_S, map_cons in H.
      apply Forall_inv in H. vm_compute in H. exact H.
Qed.

(** C6, amended.  For every score array whose entries are all non-negative
    and one of which is positive, the normalisation succeeds, the normalised
    array has maximum exactly 1 and every entry in [0, 1], and when the
    array has the size of the grid it is the array that is plotted. *)
Theorem normalized_surface (scores : list Q) :
  Forall (Qle 0) scores -> Exists (Qlt 0) scores ->
  exists a, normalize_uncertainty scores = Some a /\ normalized a /\
    (length scores = DEFAULT_N_GRID * DEFAULT_N_GRID ->
     exists grid, plot_uncertainty_surface scores = Some grid /\ concat grid = a).
Proof.
  intros Hnn Hpos.
  destruct (torch_max_is_Some scores) as [m Hm].
  { intros ->. inversion Hpos. }
  pose proof (torch_max_in _ _ Hm) as Hin.
  pose proof (torch_max_ge _ _ Hm) as Hge.
  assert (Hmpos : (0 < m)%Q).
  { apply List.Exists_exists in Hpos as (x & Hx & Hx0).
    rewrite List.Forall_forall in Hge. specialize (Hge x Hx). lra. }
  assert (Hne : ~ (m == 0)%Q) by lra.
  exists (map (fun x => fdiv x m) scores).
  assert (Hnorm : normalize_uncertainty scores = Some (map (fun x => fdiv x m) scores)).
  { unfold normalize_uncertainty. rewrite Hm. reflexivity. }
  split; [exact Hnorm|]. split.
  - split.
    + apply List.Exists_exists. exists (fdiv m m). split.
      * apply List.in_map_iff. eauto.
      * rewrite fdiv_nonzero by assumption. simpl. field. assumption.
    + apply Forall_fmap. rewrite List.Forall_forall in *.
      intros x Hx. simpl. rewrite fdiv_nonzero by assumption. simpl.
      apply Qdiv_unit; auto.
  - intros Hlen. unfold plot_uncertainty_surface. rewrite Hnorm. simpl.
    destruct (reshape_grid_concat DEFAULT_N_GRID (map (fun x => fdiv x m) scores))
      as [E1 E2].
    { rewrite length_map. exact Hlen. }
    eauto.
Qed.

Lemma normalized_surface_witness :
  exists a, normalize_uncertainty [0; 1 # 4; 1 # 8]%Q = Some a /\ normalized a.
Proof.
  destruct (normalized_surface [0; 1 # 4; 1 # 8]%Q) as (a & Ha & Hn & _).
  - repeat constructor; discriminate.
  - apply Exists_cons_tl, Exists_cons_hd. reflexivity.
  - exists a. split; assumption.
Defined.

(** C10.  The divisor of line 185 is the maximum of the scores, whatever
    it is.  When the maximum is positive every quotient is finite; when it
    is 0 the division by zero is reached at every entry: no quotient is
    finite and the one of the maximum itself is not-a-number; when it is
    negative every quotient is at least 1, so the result is no longer
    scaled into [0, 1]. *)
Theorem normalize_unguarded (scores : list Q) (m : Q) :
  torch_max scores = Some m ->
  exists a,
    normalize_uncertainty scores = Some a /\
    a = map (fun x => fdiv x m) scores /\
    ((0 < m)%Q -> Forall (fun v => is_finite v = true) a) /\
    ((m == 0)%Q -> Forall (fun v => is_finite v = false) a /\ In NaN a) /\
    ((m < 0)%Q -> Forall (fun v => exists q, v = Finite q /\ (1 <= q)%Q) a).
Proof.
  intros Hm. eexists. split; [|split; [reflexivity|]].
  { unfold normalize_uncertainty. rewrite Hm. reflexivity. }
  pose proof (torch_max_in _ _ Hm) as Hin.
  pose proof (torch_max_ge _ _ Hm) as Hge.
  split; [|split].
  - intros H. apply Forall_fmap, List.Forall_forall. intros x _. simpl.
    rewrite fdiv_nonzero by lra. reflexivity.
  - intros H. split.
    + apply Forall_fmap, List.Forall_forall. intros x _. simpl.
      apply fdiv_zero. exact H.
    + apply List.in_map_iff. exists m. split; [|exact Hin].
      apply fdiv_zero_zero; exact H.
  - intros H. apply Forall_fmap. rewrite List.Forall_forall in *.
    intros x Hx. simpl. rewrite fdiv_nonzero by lra.
    eexists. split; [reflexivity|]. apply Qdiv_neg_ge_1; auto.
Qed.

Lemma normalize_unguarded_witness :
  (exists a, normalize_uncertainty [0; - (1)]%Q = Some a /\ In NaN a)
  /\ (exists a, normalize_uncertainty [1 # 4; 1 # 8]%Q = Some a
                /\ Forall (fun v => is_finite v = true) a).
Proof.
  split.
  - destruct (normalize_unguarded [0; - (1)]%Q 0%Q eq_refl)
      as (a & Ha & _ & _ & Hz & _).
    exists a. split; [exact Ha|]. apply Hz. reflexivity.
  - destruct (normalize_unguarded [1 # 4; 1 # 8]%Q (1 # 4)%Q eq_refl)
      as (a & Ha & _ & Hp & _).
    exists a. split; [exact Ha|]. apply Hp. reflexivity.
Defined.


(** ** The evaluation grid *)

Lemma test_examples_on_lattice :
  forallb (on_lattice test_examples) (seq 0 (length test_examples)) = true.
Proof. vm_compute. reflexivity. Qed.

Lemma Qnat_le (i j : nat) : i <= j -> (Qnat i <= Qnat j)%Q.
Proof. intros H. unfold Qnat, Qle. simpl. lia. Qed.

Lemma Qnat_inj (i j : nat) : (Qnat i == Qnat j)%Q -> i = j.
Proof. unfold Qnat, Qeq. simpl. lia. Qed.

Lemma lattice_step_pos (range : Q * Q) (n : nat) :
  (fst range < snd range)%Q -> 1 < n ->
  (0 < (snd range - fst range) / Qnat (n - 1))%Q.
Proof.
  intros Hr Hn. apply Qlt_shift_div_l.
  - change 0%Q with (Qnat 0). unfold Qnat, Qlt. simpl. lia.
  - lra.
Qed.

Lemma lattice_coord_inj (range : Q * Q) (n i j : nat) :
  (fst range < snd range)%Q -> 1 < n ->
  (lattice_coord range n i == lattice_coord range n j)%Q -> i = j.
Proof.
  intros Hr Hn H. pose proof (lattice_step_pos range n Hr Hn) as Hs.
  unfold lattice_coord in H.
  set (s := ((snd range - fst range) / Qnat (n - 1))%Q) in *.
  assert (E : ((Qnat i - Qnat j) * s == 0)%Q) by lra.
  apply Qmult_integral in E. destruct E as [E | E]; [|lra].
  apply Qnat_inj. lra.
Qed.

Lemma lattice_coord_range (range : Q * Q) (n i : nat) :
  (fst range < snd range)%Q -> 1 < n -> i < n ->
  (fst range <= lattice_coord range n i <= snd range)%Q.
Proof.
  intros Hr Hn Hi. pose proof (lattice_step_pos range n Hr Hn) as Hs.
  unfold lattice_coord.
  set (s := ((snd range - fst range) / Qnat (n - 1))%Q) in *.
  assert (Hlast : (Qnat (n - 1) * s == snd range - fst range)%Q).
  { unfold s. field. intros E. change 0%Q with (Qnat 0) in E.
    apply Qnat_inj in E. lia. }
  assert (H0 : (0 <= Qnat i)%Q) by (apply (Qnat_le 0); lia).
  assert (H1 : (Qnat i <= Qnat (n - 1))%Q) by (apply Qnat_le; lia).
  split.
  - assert (0 <= Qnat i * s)%Q by (apply Qmult_le_0_compat; lra). lra.
  - assert (Qnat i * s <= Qnat (n - 1) * s)%Q by (apply Qmult_le_compat_r; lra).
    lra.
Qed.

Lemma test_examples_lookup (k : nat) :
  k < 10000 ->
  exists pt, test_examples !! k = Some pt
    /\ peq pt (lattice_coord DEFAULT_X_RANGE DEFAULT_N_GRID (k mod DEFAULT_N_GRID),
               lattice_coord DEFAULT_Y_RANGE DEFAULT_N_GRID (k / DEFAULT_N_GRID)).
Proof.
  intros Hk. pose proof test_examples_on_lattice as H.
  rewrite forallb_forall in H. specialize (H k).
  rewrite test_examples_length in H.
  assert (Hin : In k (seq 0 10000)) by (apply in_seq; lia).
  specialize (H Hin). unfold on_lattice in H.
  destruct (test_examples !! k) as [pt|]; [|discriminate].
  apply andb_prop in H as [H1 H2].
  exists pt. split; [reflexivity|].
  split; simpl; apply Qeq_bool_eq; assumption.
Qed.

(** C4.  With the default arguments [make_testing_data] returns exactly
    10000 points; entry [k] is the lattice point whose first coordinate is
    entry [k mod 100] of the 100 evenly spaced values from -3.5 to 3.5 and
    whose second coordinate is entry [k / 100] of the 100 evenly spaced
    values from -2.5 to 2.5; every pair of such values occurs at exactly
    one position; and the points stay in the rectangle, whose sides are
    reached. *)
Theorem test_grid_lattice :
  length test_examples = 10000
  /\ (forall k, k < 10000 ->
        exists pt, test_examples !! k = Some pt
          /\ peq pt (lattice_coord DEFAULT_X_RANGE 100 (k mod 100),
                     lattice_coord DEFAULT_Y_RANGE 100 (k / 100)))
  /\ (forall i j k, i < 100 -> j < 100 -> k < 10000 ->
        (exists pt, test_examples !! k = Some pt
           /\ peq pt (lattice_coord DEFAULT_X_RANGE 100 i,
                      lattice_coord DEFAULT_Y_RANGE 100 j))
        <-> k = j * 100 + i)
  /\ (forall i, i < 100 ->
        (- (7 # 2) <= lattice_coord DEFAULT_X_RANGE 100 i <= 7 # 2)%Q
        /\ (- (5 # 2) <= lattice_coord DEFAULT_Y_RANGE 100 i <= 5 # 2)%Q)
  /\ (lattice_coord DEFAULT_X_RANGE 100 0 == - (7 # 2))%Q
  /\ (lattice_coord DEFAULT_X_RANGE 100 99 == 7 # 2)%Q
  /\ (lattice_coord DEFAULT_Y_RANGE 100 0 == - (5 # 2))%Q
  /\ (lattice_coord DEFAULT_Y_RANGE 100 99 == 5 # 2)%Q.
Proof.
  assert (Hx : (fst DEFAULT_X_RANGE < snd DEFAULT_X_RANGE)%Q) by reflexivity.
  assert (Hy : (fst DEFAULT_Y_RANGE < snd DEFAULT_Y_RANGE)%Q) by reflexivity.
  split; [exact test_examples_length|].
  split; [exact test_examples_lookup|].
  split; [|split; [|repeat split; vm_compute; reflexivity]].
  - intros i j k Hi Hj Hk. split.
    + intros (pt & Hpt & Hp1 & Hp2).
      destruct (test_examples_lookup k Hk) as (pt' & Hpt' & Hq1 & Hq2).
      rewrite Hpt in Hpt'. injection Hpt' as <-. cbn [fst snd] in *.
      rewrite Hp1 in Hq1. rewrite Hp2 in Hq2.
      change DEFAULT_N_GRID with 100 in *.
      apply lattice_coord_inj in Hq1; [|assumption|lia].
      apply lattice_coord_inj in Hq2; [|assumption|lia].
      pose proof (Nat.div_mod_eq k 100). lia.
    + intros ->.
      destruct (test_examples_lookup (j * 100 + i)) as (pt & Hpt & Hq1 & Hq2);
        [lia|].
      exists pt. split; [exact Hpt|].
      change DEFAULT_N_GRID with 100 in *.
      replace ((j * 100 + i) mod 100) with i in Hq1
        by (rewrite (Nat.add_comm (j * 100) i), Nat.Div0.mod_add, Nat.mod_small; lia).
      replace ((j * 100 + i) / 100) with j in Hq2
        by (rewrite Nat.div_add_l, Nat.div_small; lia).
      split; assumption.
  - intros i Hi. split.
    + apply (lattice_coord_range DEFAULT_X_RANGE 100 i); [assumption|lia|lia].
    + apply (lattice_coord_range DEFAULT_Y_RANGE 100 i); [assumption|lia|lia].
Qed.

Lemma test_grid_lattice_witness :
  exists pt, test_examples !! 199 = Some pt
    /\ peq pt (lattice_coord DEFAULT_X_RANGE 100 99,
               lattice_coord DEFAULT_Y_RANGE 100 1).
Proof.
  destruct test_grid_lattice as (_ & _ & H & _).
  apply (H 99 1 199); [lia | lia | apply Nat.ltb_lt; reflexivity | reflexivity].
Defined.

(** * Further properties of the grid, the surfaces and the accuracy *)

(** ** The grid for any range and resolution *)

Lemma linspace_length (start stop : Q) (num : nat) :
  length (linspace start stop num) = num.
Proof.
  unfold linspace.
  destruct (1 <? num); destruct (0 <? num - 1);
    try destruct (Qeq_bool _ 0);
    rewrite ?length_insert, !length_map, length_seq; reflexivity.
Qed.

Lemma Qnat_nonzero (n : nat) : 0 < n -> ~ (Qnat n == 0)%Q.
Proof. intros H E. unfold Qnat, Qeq in E. simpl in E. lia. Qed.

Lemma linspace_lookup (start stop : Q) (num i : nat) :
  1 < num -> i < num ->
  exists q, linspace start stop num !! i = Some q
            /\ (q == lattice_coord (start, stop) num i)%Q.
Proof.
  intros Hn Hi. unfold linspace, lattice_coord. cbn [fst snd].
  assert (Hn' : (1 <? num) = true) by (apply Nat.ltb_lt; lia). rewrite Hn'.
  assert (Hd : (0 <? num - 1) = true) by (apply Nat.ltb_lt; lia). rewrite Hd.
  pose proof (Qnat_nonzero (num - 1) ltac:(lia)) as Hnz.
  destruct (decide (i = num - 1)) as [-> | Hne].
  - exists stop. split.
    + apply list_lookup_insert_eq.
      destruct (Qeq_bool _ 0); rewrite !length_map, length_seq; lia.
    + field. exact Hnz.
  - rewrite list_lookup_insert_ne by lia.
    destruct (Qeq_bool ((stop - start) / Qnat (num - 1)) 0);
      rewrite !list_lookup_fmap, lookup_seq_lt by lia; cbn;
      eexists; (split; [reflexivity|]); field; exact Hnz.
Qed.

Lemma zip_mesh (x y : list Q) :
  zip (concat (map (fun _ => x) y)) (concat (map (fun yj => map (fun _ => yj) x) y))
  = concat (map (fun yj => map (fun xi => (xi, yj)) x) y).
Proof.
  induction y as [|yj y IH]; [reflexivity|].
  cbn [map concat]. rewrite zip_with_app by (rewrite length_map; reflexivity).
  rewrite IH. f_equal.
  clear. induction x as [|xi x IH]; [reflexivity|]. cbn. f_equal. exact IH.
Qed.

Lemma make_testing_data_rows (x_range y_range : Q * Q) (n_grid : nat) :
  make_testing_data x_range y_range n_grid
  = concat (map (fun yj => map (fun xi => (xi, yj))
                             (linspace (fst x_range) (snd x_range) n_grid))
                (linspace (fst y_range) (snd y_range) n_grid)).
Proof. unfold make_testing_data, meshgrid, stack_last, flatten. apply zip_mesh. Qed.

Lemma concat_uniform_length {A} (n : nat) (rows : list (list A)) :
  Forall (fun r => length r = n) rows -> length (concat rows) = length rows * n.
Proof.
  induction 1 as [|r rows Hr _ IH]; [reflexivity|].
  cbn. rewrite length_app, IH, Hr. reflexivity.
Qed.

Lemma concat_uniform_lookup {A} (n : nat) (rows : list (list A)) (i j : nat) :
  Forall (fun r => length r = n) rows -> i < n ->
  concat rows !! (j * n + i) = rows !! j ≫= (fun r => r !! i).
Proof.
  intros H Hi. revert j. induction H as [|r rows Hr _ IH]; intros j.
  - cbn. rewrite !lookup_nil. reflexivity.
  - destruct j as [|j]; cbn [concat].
    + cbn. rewrite lookup_app_l by lia. reflexivity.
    + rewrite lookup_app_r by (rewrite Hr; cbn; lia).
      replace (S j * n + i - length r) with (j * n + i) by (rewrite Hr; cbn; lia).
      rewrite IH. reflexivity.
Qed.

(** X12.  For every range and resolution the grid has [n_grid * n_grid]
    points; in particular it is empty for [n_grid = 0] and a single point
    for [n_grid = 1]. *)
Theorem make_testing_data_size (x_range y_range : Q * Q) (n_grid : nat) :
  length (make_testing_data x_range y_range n_grid) = n_grid * n_grid.
Proof.
  rewrite make_testing_data_rows.
  rewrite (concat_uniform_length n_grid).
  - rewrite length_map, linspace_length. reflexivity.
  - apply Forall_fmap, Forall_true. intros yj. cbn.
    rewrite length_map, linspace_length. reflexivity.
Qed.

(** X13.  For every range and every resolution of at least 2, the point at
    position [j * n_grid + i] of the grid is the lattice point whose first
    coordinate is entry [i] of the evenly spaced values over [x_range] and
    whose second coordinate is entry [j] of those over [y_range]: the
    first coordinate varies fastest. *)
Theorem make_testing_data_lattice (x_range y_range : Q * Q) (n_grid i j : nat) :
  1 < n_grid -> i < n_grid -> j < n_grid ->
  exists pt, make_testing_data x_range y_range n_grid !! (j * n_grid + i) = Some pt
    /\ peq pt (lattice_coord x_range n_grid i, lattice_coord y_range n_grid j).
Proof.
  intros Hn Hi Hj. rewrite make_testing_data_rows.
  rewrite (concat_uniform_lookup n_grid) by
    (try assumption; apply Forall_fmap, Forall_true; intros yj; cbn;
     rewrite length_map, linspace_length; reflexivity).
  destruct (linspace_lookup (fst x_range) (snd x_range) n_grid i Hn Hi)
    as (qx & Hx & Ex).
  destruct (linspace_lookup (fst y_range) (snd y_range) n_grid j Hn Hj)
    as (qy & Hy & Ey).
  rewrite list_lookup_fmap, Hy. cbn. rewrite list_lookup_fmap, Hx. cbn.
  exists (qx, qy). split; [reflexivity|].
  destruct x_range, y_range. split; assumption.
Qed.

Lemma make_testing_data_lattice_witness :
  exists pt, make_testing_data (0, 1)%Q (0, 2)%Q 3 !! 5 = Some pt
    /\ peq pt (lattice_coord (0, 1)%Q 3 2, lattice_coord (0, 2)%Q 3 1).
Proof. apply (make_testing_data_lattice (0, 1)%Q (0, 2)%Q 3 2 1); lia. Defined.

(** ** The surfaces *)

Lemma rows_of_shape {A} (n r : nat) (a : list A) :
  length a = n * r ->
  length (rows_of n r a) = r /\ Forall (fun row => length row = n) (rows_of n r a).
Proof.
  revert a. induction r as [|r IH]; intros a Ha; cbn [rows_of].
  - split; [reflexivity | constructor].
  - destruct (IH (drop n a)) as [H1 H2]; [rewrite length_drop; lia|].
    split; [cbn; lia|]. constructor; [|exact H2].
    rewrite length_take. lia.
Qed.

(** X14.  [plot_uncertainty_surface] produces an array exactly when the
    score array has [DEFAULT_N_GRID * DEFAULT_N_GRID] entries (the reshape
    fails otherwise, and the maximum of an empty array does not exist);
    the array then has [DEFAULT_N_GRID] rows of [DEFAULT_N_GRID] entries
    which, row after row, are the normalised scores in their order. *)
Theorem plot_uncertainty_surface_shape (scores : list Q) :
  (is_Some (plot_uncertainty_surface scores)
   <-> length scores = DEFAULT_N_GRID * DEFAULT_N_GRID)
  /\ (forall grid, plot_uncertainty_surface scores = Some grid ->
        length grid = DEFAULT_N_GRID
        /\ Forall (fun row => length row = DEFAULT_N_GRID) grid
        /\ normalize_uncertainty scores = Some (concat grid)).
Proof.
  unfold plot_uncertainty_surface, normalize_uncertainty.
  destruct scores as [|x xs].
  { cbn. split; [|discriminate]. split; [intros [? ?]; discriminate|].
    intros H. exfalso. revert H. vm_compute. discriminate. }
  cbn [torch_max mbind option_bind].
  set (m := fold_left Qmax xs x). set (a := map (fun y => fdiv y m) (x :: xs)).
  assert (Ha : length a = length (x :: xs)) by (unfold a; apply length_map).
  unfold reshape_grid. rewrite Ha.
  destruct (length (x :: xs) =? DEFAULT_N_GRID * DEFAULT_N_GRID) eqn:E.
  - apply Nat.eqb_eq in E. split.
    + split; [intros _; exact E | intros _; eexists; reflexivity].
    + intros grid Hg.
      replace grid with (rows_of DEFAULT_N_GRID DEFAULT_N_GRID a) by congruence.
      destruct (rows_of_shape DEFAULT_N_GRID DEFAULT_N_GRID a) as [H1 H2];
        [congruence|].
      split; [exact H1|]. split; [exact H2|].
      rewrite concat_rows_of, take_ge by lia. reflexivity.
  - apply Nat.eqb_neq in E. split; [|discriminate].
    split; [intros [? ?]; discriminate | intros H; contradiction].
Qed.

Lemma normalize_nonneg (scores : list Q) :
  Forall (Qle 0) scores -> Exists (Qlt 0) scores ->
  exists a, normalize_uncertainty scores = Some a /\ normalized a.
Proof.
  intros Hnn Hpos.
  destruct (torch_max_is_Some scores) as [m Hm].
  { intros ->. inversion Hpos. }
  pose proof (torch_max_in _ _ Hm) as Hin.
  pose proof (torch_max_ge _ _ Hm) as Hge.
  assert (Hmpos : (0 < m)%Q).
  { apply List.Exists_exists in Hpos as (x & Hx & Hx0).
    rewrite List.Forall_forall in Hge. specialize (Hge x Hx). lra. }
  assert (Hne : ~ (m == 0)%Q) by lra.
  exists (map (fun x => fdiv x m) scores). split.
  { unfold normalize_uncertainty. rewrite Hm. reflexivity. }
  split.
  - apply List.Exists_exists. exists (fdiv m m). split.
    + apply List.in_map_iff. eauto.
    + rewrite fdiv_nonzero by assumption. simpl. field. assumption.
  - apply Forall_fmap. rewrite List.Forall_forall in *.
    intros x Hx. simpl. rewrite fdiv_nonzero by assumption. simpl.
    apply Qdiv_unit; auto.
Qed.

Lemma uncertainty_nonneg (p : Q) : (0 <= p <= 1 -> 0 <= uncertainty p)%Q.
Proof. intros [H0 H1]. unfold uncertainty. apply Qmult_le_0_compat; lra. Qed.

Lemma uncertainty_pos (p : Q) : (0 < p -> p < 1 -> 0 < uncertainty p)%Q.
Proof.
  intros H0 H1. unfold uncertainty.
  assert (H : (0 * (1 - p) < p * (1 - p))%Q)
    by (apply Qmult_lt_compat_r; lra).
  lra.
Qed.

(** X15.  When every probability lies in [0, 1] and at least one lies
    strictly between 0 and 1, the uncertainty scores of line 223 lie in
    [0, 1/4] and their normalisation at line 185 succeeds with maximum 1
    and every entry in [0, 1]. *)
Theorem uncertainty_surface_normalized (probs : list Q) :
  Forall (fun p => (0 <= p <= 1)%Q) probs ->
  Exists (fun p => (0 < p)%Q /\ (p < 1)%Q) probs ->
  exists a, normalize_uncertainty (resnet_uncertainty probs) = Some a
            /\ normalized a
            /\ Forall (fun u => (0 <= u <= 1 # 4)%Q) (resnet_uncertainty probs).
Proof.
  intros Hr Hin. rewrite resnet_uncertainty_map.
  destruct (normalize_nonneg (map uncertainty probs)) as (a & Ha & Hn).
  - apply Forall_fmap. rewrite List.Forall_forall in *.
    intros p Hp. cbn. apply uncertainty_nonneg. auto.
  - apply List.Exists_exists in Hin as (p & Hp & H0 & H1).
    apply List.Exists_exists. exists (uncertainty p). split.
    + apply List.in_map_iff. eauto.
    + apply uncertainty_pos; assumption.
  - exists a. split; [exact Ha|]. split; [exact Hn|].
    apply Forall_fmap. rewrite List.Forall_forall in *.
    intros p Hp. cbn. split; [apply uncertainty_nonneg; auto|].
    pose proof (uncertainty_le_quarter p) as H.
    assert (E : (uncertainty (1 # 2) == 1 # 4)%Q) by reflexivity.
    lra.
Qed.

Lemma uncertainty_surface_normalized_witness :
  exists a, normalize_uncertainty (resnet_uncertainty [0; 1 # 2; 1]%Q) = Some a
            /\ normalized a.
Proof.
  destruct (uncertainty_surface_normalized [0; 1 # 2; 1]%Q) as (a & Ha & Hn & _).
  - repeat constructor; discriminate.
  - apply Exists_cons_tl, Exists_cons_hd. split; reflexivity.
  - exists a. split; assumption.
Defined.

Lemma fold_Qmax_zero (xs : list Q) (x : Q) :
  (x == 0)%Q -> Forall (fun y => (y == 0)%Q) xs -> (fold_left Qmax xs x == 0)%Q.
Proof.
  intros Hx H. revert x Hx. induction H as [|y xs Hy _ IH]; intros x Hx; cbn.
  - exact Hx.
  - apply IH. destruct (Qmax_cases x y) as [-> | ->]; assumption.
Qed.

(** X16.  When every probability is exactly 0 or 1 (the sigmoid has
    saturated everywhere), every uncertainty score is 0, the maximum is 0,
    and the normalised uncertainty array consists of not-a-number only. *)
Theorem uncertainty_surface_saturated (probs : list Q) :
  probs <> [] ->
  Forall (fun p => (p == 0)%Q \/ (p == 1)%Q) probs ->
  normalize_uncertainty (resnet_uncertainty probs)
  = Some (replicate (length probs) NaN).
Proof.
  intros Hne H. rewrite resnet_uncertainty_map.
  assert (Hz : Forall (fun u => (u == 0)%Q) (map uncertainty probs)).
  { apply Forall_fmap. eapply Forall_impl; [exact H|].
    intros p Hp. cbn. apply uncertainty_zero_iff. exact Hp. }
  unfold normalize_uncertainty.
  destruct (map uncertainty probs) as [|u us] eqn:E.
  { destruct probs; [congruence | discriminate]. }
  cbn [torch_max mbind option_bind].
  assert (Hm : (fold_left Qmax us u == 0)%Q).
  { apply fold_Qmax_zero; [apply (Forall_inv Hz) | apply (Forall_inv_tail Hz)]. }
  f_equal. replace (length probs) with (length (u :: us))
    by (rewrite <- E; apply length_map).
  generalize (u :: us), Hz. clear -Hm. intros l Hl.
  induction Hl as [|v l Hv _ IH]; [reflexivity|].
  cbn [map length replicate]. rewrite IH. f_equal.
  apply fdiv_zero_zero; assumption.
Qed.

Lemma uncertainty_surface_saturated_witness :
  normalize_uncertainty (resnet_uncertainty [0; 1; 1]%Q) = Some [NaN; NaN; NaN].
Proof.
  apply (uncertainty_surface_saturated [0; 1; 1]%Q).
  - discriminate.
  - constructor; [left; reflexivity|].
    constructor; [right; reflexivity|].
    constructor; [right; reflexivity | constructor].
Defined.

(** ** The accuracy of a minibatch *)

Lemma Qnat_S (n : nat) : (Qnat (S n) == Qnat n + 1)%Q.
Proof.
  unfold Qnat. rewrite Nat2Z.inj_succ, <- Z.add_1_r, inject_Z_plus. reflexivity.
Qed.

Lemma qsum_bounds (l : list Q) (acc : Q) :
  Forall (fun x => (0 <= x <= 1)%Q) l ->
  (acc <= fold_left Qplus l acc <= acc + Qnat (length l))%Q.
Proof.
  intros H. revert acc. induction H as [|x l Hx _ IH]; intros acc.
  - cbn. change (Qnat 0) with 0%Q. split; lra.
  - cbn [fold_left length]. rewrite Qnat_S.
    destruct (IH (acc + x)%Q) as [H1 H2]. split; lra.
Qed.

(** X17.  The accuracy recorded for a minibatch that is not empty is a
    fraction: it lies between 0 and 1. *)
Theorem accuracy_range (probabilities y_train : list Q) :
  probabilities <> [] -> length y_train = length probabilities ->
  (0 <= accuracy probabilities y_train <= 1)%Q.
Proof.
  intros Hne Hlen. unfold accuracy, average, Tensor.qsum.
  set (l := zip_with _ probabilities y_train).
  assert (Hl : Forall (fun x => (0 <= x <= 1)%Q) l).
  { unfold l. clear. revert y_train.
    induction probabilities as [|pr ps IH]; intros [|y ys]; cbn; try constructor.
    - destruct (Qeq_bool _ y); split; discriminate.
    - apply IH. }
  assert (Hpos : 0 < length l).
  { unfold l. rewrite length_zip_with, Hlen.
    destruct probabilities; [congruence | cbn; lia]. }
  destruct (qsum_bounds l 0 Hl) as [H0 H1].
  assert (Hn : (0 < Qnat (length l))%Q).
  { change 0%Q with (Qnat 0). unfold Qnat, Qlt. cbn. lia. }
  apply Qdiv_unit; [exact Hn | exact H0 | lra].
Qed.

Lemma accuracy_range_witness :
  (0 <= accuracy [1 # 4; 3 # 4; 9 # 10] [0; 1; 0] <= 1)%Q.
Proof. apply accuracy_range; [discriminate | reflexivity]. Defined.

(** * Instances

    The properties of the script that have a precondition, at a network of
    one residual block of width 1 and with the counter as the generator. *)

Lemma forward_eval_mode_witness :
  let s := [Param [[1]] false None; Param [[0]] false None;
            Param [[1]] true None; Param [[0]] true None;
            Param [[1]] true None; Param [[0]] true None]%Q in
  let m :=
    {| num_inputs_features := 1; num_layers := 1; num_hidden := 1;
       dropout_rate := 1 # 2; num_outputs := 1;
       input_layer := {| weight := 0; bias := 1 |};
       linears := [{| weight := 2; bias := 3 |}];
       dropout := {| p := 1 # 2; dropout_training := false |};
       classifier := {| weight := 4; bias := 5 |};
       training := false |} in
  exists out, forall g, forward nat counter_bernoulli m s [[1]]%Q g = (out, g).
Proof. intros s m. apply (forward_eval_mode nat counter_bernoulli m s). reflexivity. Defined.


Lemma Adam_step_only_its_params_witness :
  let rule := fun (rate : Q) (a : adam_state) (d g : Tensor.mat) =>
                (a, Tensor.madd d g) in
  let opt := {| params := [0]; lr := 1 # 10; state := ∅ |} in
  let s := Process nat 0 0 [Param [[1]] true (Some [[1]]);
                            Param [[2]] true (Some [[1]])]%Q [] in
  store nat (snd (Adam_step nat rule opt s)) !! 1 = store nat s !! 1.
Proof.
  intros rule opt s.
  apply (Adam_step_only_its_params nat rule opt s 1).
  intros H. apply elem_of_cons in H as [H | H]; [discriminate | inversion H].
Defined.


Lemma DataLoader_epoch_partition_witness :
  let dl := {| examples := [(0, 0); (1, 1); (2, 2)]%Q;
               labels := [0; 1; 0]%Q;
               batch_size := 2 |} in
  let bs := fst (DataLoader_iter nat counter_next (fun n => n) dl
                   (Process nat 3 5 [] [])) in
  concat (map (fun b => zip (fst b) (snd b)) bs)
  ≡ₚ zip (map row_of (examples dl)) (labels dl)
  /\ Forall (fun b => 0 < length (fst b) <= batch_size dl
                      /\ length (snd b) = length (fst b)) bs.
Proof.
  intros dl.
  apply (DataLoader_epoch_partition nat counter_next (fun n => n) dl
           (Process nat 3 5 [] [])); [cbn; lia | reflexivity].
Defined.


(** * Examples

    The definitions evaluated on small inputs, with the counter as the
    generator where one is needed. *)

Example linspace_three : linspace 0 1 3 = [0 # 2; 1 # 2; 1]%Q.
Proof. reflexivity. Qed.

Example linspace_one : linspace 3 5 1 = [0 * (5 - 3) + 3]%Q.
Proof. reflexivity. Qed.

Example make_testing_data_two :
  make_testing_data (0, 1)%Q (0, 2)%Q 2 = [(0, 0); (1, 0); (0, 2); (1, 2)]%Q.
Proof. reflexivity. Qed.

Example normalize_three :
  normalize_uncertainty [1; 2; 4]%Q
  = Some [Finite (1 # 4); Finite (2 # 4); Finite (4 # 4)].
Proof. reflexivity. Qed.

Example normalize_empty : normalize_uncertainty [] = None.
Proof. reflexivity. Qed.

Example plot_wrong_size : plot_uncertainty_surface [1; 2]%Q = None.
Proof. reflexivity. Qed.

Example np_shuffle_counter :
  np_shuffle nat counter_next [0; 1; 2; 3] 5 = ([2; 3; 0; 1], 8).
Proof. reflexivity. Qed.

Example randperm_counter : fst (randperm nat counter_next 5 7) = [2; 1; 0; 3; 4].
Proof. reflexivity. Qed.

Example BatchSampler_rest : BatchSampler 2 [4; 3; 2; 1; 0] = [[4; 3]; [2; 1]; [0]].
Proof. reflexivity. Qed.

Example make_training_data_two :
  fst (make_training_data nat counter_next (fun _ g => (0%Q, S g))
         (fun _ i => (Qnat i, 0%Q)) (fun _ i => (Qnat i, 1%Q)) 2 3)
  = ([(- (1 # 10), 2 # 10); (1 # 10, 8 # 10); (9 # 10, 2 # 10); (11 # 10, 8 # 10)]%Q,
     [0; 1; 0; 1]%Q).
Proof. vm_compute. reflexivity. Qed.

Example F_dropout_training :
  F_dropout nat counter_bernoulli (1 # 2) true [[1; 1]]%Q 0 = ([[2; 0]]%Q, 2).
Proof. vm_compute. reflexivity. Qed.

Example F_dropout_eval :
  F_dropout nat counter_bernoulli (1 # 2) false [[1; 1]]%Q 0 = ([[1; 1]]%Q, 0).
Proof. reflexivity. Qed.

(** A network of one residual block of width 1 whose weights are 1 and whose
    biases are 0, on the input 1: with the training flag set the block
    output is dropped and the logit is 1; in evaluation mode it is 2. *)
Example forward_depends_on_mode :
  let s := [Param [[1]] false None; Param [[0]] false None;
            Param [[1]] true None; Param [[0]] true None;
            Param [[1]] true None; Param [[0]] true None]%Q in
  let m := fun mode =>
    {| num_inputs_features := 1; num_layers := 1; num_hidden := 1;
       dropout_rate := 1 # 2; num_outputs := 1;
       input_layer := {| weight := 0; bias := 1 |};
       linears := [{| weight := 2; bias := 3 |}];
       dropout := {| p := 1 # 2; dropout_training := mode |};
       classifier := {| weight := 4; bias := 5 |};
       training := mode |} in
  forward nat counter_bernoulli (m true) s [[1]]%Q 1 = ([[1]]%Q, 2)
  /\ forward nat counter_bernoulli (m false) s [[1]]%Q 1 = ([[2]]%Q, 1).
Proof. vm_compute. split; reflexivity. Qed.
